(** * pyUmbral: the [Point] class of [umbral/point.py]

    A shallow embedding of [umbral.point.Point], the Python wrapper around
    OpenSSL's [EC_POINT], and proofs of the properties its specification
    states.

    The program comes first:
    - bytes and big numbers ([BN_bin2bn], [BN_num_bytes]);
    - the group arithmetic of a short Weierstrass curve over a prime field,
      which is what the [EC_POINT_*] primitives of the native library compute;
    - the native heap of [EC_POINT] objects and the primitives that the
      source reaches through [backend._lib];
    - the helpers of [umbral.openssl], [umbral.config], [umbral.curvebn];
    - the methods of [Point], one definition per method of the source.
    Then the vocabulary of the properties, and then the proofs.  A last
    part proves further properties of the methods: what they do to the
    native heap, the group laws of the operators, the wire format.

    The native library is not part of the repository.  Its primitives are
    modelled on what OpenSSL's prime-field implementation does
    ([crypto/ec/ec_lib.c], [ecp_smpl.c], [ecp_oct.c]): the checks and their
    order, the return values, the SEC1 encoding.  Points are kept in affine
    coordinates, and a Python exception ends the run. *)

From Stdlib Require Import ZArith Znumtheory Zcong Lia List.
From Stdlib.Strings Require Import Byte.
From stdpp Require Import base tactics option list gmap.

Local Open Scope Z_scope.

(** * The program *)

(** ** Bytes and big numbers *)

Definition byte_to_Z (b : byte) : Z := Z.of_N (Byte.to_N b).

Definition byte_of_Z (z : Z) : byte :=
  match Byte.of_N (Z.to_N (z mod 256)) with
  | Some b => b
  | None => x00
  end.

(** [BN_bin2bn(s, len, NULL)]: the big-endian value of a byte string. *)
Definition BN_bin2bn (s : list byte) : Z :=
  fold_left (fun acc b => acc * 256 + byte_to_Z b) s 0.

(** [BN_bn2bin] preceded by the zero padding that [EC_POINT_point2oct]
    writes: the big-endian encoding of [x] on exactly [tolen] bytes. *)
Fixpoint BN_bn2binpad (x : Z) (tolen : nat) : list byte :=
  match tolen with
  | O => []
  | S n => BN_bn2binpad (x / 256) n ++ [byte_of_Z x]
  end.

Definition BN_num_bits (x : Z) : Z :=
  if Z.abs x =? 0 then 0 else Z.log2 (Z.abs x) + 1.

Definition BN_num_bytes (x : Z) : nat := Z.to_nat ((BN_num_bits x + 7) / 8).

Definition BN_is_odd (x : Z) : bool := Z.odd x.

(** ** The curve group

    [EC_GROUP] is OpenSSL's description of a curve [y^2 = x^3 + a x + b] over
    the prime field of [field] elements, named by [curve_name] (0 when it
    has no name).  A group element is the point at infinity ([None]) or an
    affine pair. *)

Definition affine := option (Z * Z).

Record EC_GROUP := {
  curve_name : Z;
  field : Z;
  coef_a : Z;
  coef_b : Z;
  group_generator : affine;
  order : Z
}.

Definition curve_rhs (G : EC_GROUP) (x : Z) : Z :=
  x * x * x + coef_a G * x + coef_b G.

(** [EC_POINT_is_on_curve] *)
Definition is_on_curve (G : EC_GROUP) (P : affine) : bool :=
  match P with
  | None => true
  | Some (x, y) => (y * y) mod field G =? curve_rhs G x mod field G
  end.

(** The opposite, the double and the sum of points, by the chord and
    tangent formulas; inverses modulo the field order by [Z.invmod]. *)
Definition ec_neg (G : EC_GROUP) (P : affine) : affine :=
  match P with
  | None => None
  | Some (x, y) => Some (x, (- y) mod field G)
  end.

Definition ec_dbl (G : EC_GROUP) (P : affine) : affine :=
  match P with
  | None => None
  | Some (x, y) =>
      let p := field G in
      if y mod p =? 0 then None
      else
        let l := ((3 * x * x + coef_a G) * Z.invmod (2 * y) p) mod p in
        let x3 := (l * l - x - x) mod p in
        let y3 := (l * (x - x3) - y) mod p in
        Some (x3, y3)
  end.

Definition ec_add (G : EC_GROUP) (P Q : affine) : affine :=
  match P, Q with
  | None, _ => Q
  | _, None => P
  | Some (x1, y1), Some (x2, y2) =>
      let p := field G in
      if (x2 - x1) mod p =? 0 then
        if (y2 - y1) mod p =? 0 then ec_dbl G P else None
      else
        let l := ((y2 - y1) * Z.invmod (x2 - x1) p) mod p in
        let x3 := (l * l - x1 - x2) mod p in
        let y3 := (l * (x1 - x3) - y1) mod p in
        Some (x3, y3)
  end.

(** Scalar multiplication by double-and-add; a negative scalar multiplies
    the opposite point. *)
Definition ec_mul (G : EC_GROUP) (m : Z) (P : affine) : affine :=
  match m with
  | Z0 => None
  | Zpos k => Pos.iter_op (ec_add G) k P
  | Zneg k => ec_neg G (Pos.iter_op (ec_add G) k P)
  end.

(** ** SEC1 octet strings

    What [EC_POINT_point2oct] and [EC_POINT_oct2point] compute on the group
    element, apart from the native heap. *)

Definition POINT_CONVERSION_COMPRESSED : Z := 2.
Definition POINT_CONVERSION_UNCOMPRESSED : Z := 4.
Definition POINT_CONVERSION_HYBRID : Z := 6.

(** [BN_mod_sqrt]: a square root of [a] modulo [p], or nothing when [a] is
    not a square.  Which of the two roots comes out does not matter to the
    decoder, which fixes the parity afterwards. *)
Definition BN_mod_sqrt (a p : Z) : option Z :=
  find (fun r => (r * r) mod p =? a mod p) (seqZ 0 p).

(** Overwrite the first bytes of a buffer. *)
Definition write_buf (buf out : list byte) : list byte :=
  out ++ drop (length out) buf.

(** The encoder: the number of octets written into [buf], which has room
    for [len], or 0 when the form is unknown or the room too small. *)
Definition ec_point2oct (G : EC_GROUP) (P : affine) (form : Z)
    (buf : list byte) (len : nat) : nat * list byte :=
  if negb ((form =? POINT_CONVERSION_COMPRESSED)
           || (form =? POINT_CONVERSION_UNCOMPRESSED)
           || (form =? POINT_CONVERSION_HYBRID))
  then (O, buf)
  else
    match P with
    | None =>
        (* the point at infinity encodes to a single 0 octet *)
        if (len <? 1)%nat then (O, buf) else (1%nat, write_buf buf [x00])
    | Some (x, y) =>
        let field_len := BN_num_bytes (field G) in
        let ret :=
          if form =? POINT_CONVERSION_COMPRESSED
          then (1 + field_len)%nat else (1 + 2 * field_len)%nat in
        if (len <? ret)%nat then (O, buf)
        else if (field_len <? BN_num_bytes x)%nat then (O, buf)
        else if (field_len <? BN_num_bytes y)%nat then (O, buf)
        else
          let b0 :=
            if ((form =? POINT_CONVERSION_COMPRESSED)
                || (form =? POINT_CONVERSION_HYBRID)) && BN_is_odd y
            then form + 1 else form in
          let xs := BN_bn2binpad x field_len in
          let ys :=
            if (form =? POINT_CONVERSION_UNCOMPRESSED)
               || (form =? POINT_CONVERSION_HYBRID)
            then BN_bn2binpad y field_len else [] in
          (ret, write_buf buf (byte_of_Z b0 :: xs ++ ys))
    end.

(** [EC_POINT_set_compressed_coordinates]: recover the ordinate of parity
    [y_bit] over the abscissa [x]. *)
Definition ec_set_compressed_coordinates (G : EC_GROUP) (x : Z) (y_bit : bool)
    : option affine :=
  let p := field G in
  let x_ := x mod p in
  match BN_mod_sqrt (curve_rhs G x_ mod p) p with
  | None => None
  | Some y =>
      if negb (Bool.eqb y_bit (BN_is_odd y)) then
        if y =? 0 then None else Some (Some (x_, p - y))
      else Some (Some (x_, y))
  end.

(** The decoder of the first [len] bytes of [buf]: the point, or nothing
    when the string is not a SEC1 encoding of a point of the curve.  The
    first byte gives the form and the parity of the ordinate; the string 00
    is the point at infinity. *)
Definition ec_oct2point (G : EC_GROUP) (buf : list byte) (len : nat)
    : option affine :=
  match take len buf with
  | [] => None
  | b0 :: rest =>
      let y_bit := Z.odd (byte_to_Z b0) in
      let form := byte_to_Z b0 - (if y_bit then 1 else 0) in
      if negb ((form =? 0) || (form =? POINT_CONVERSION_COMPRESSED)
               || (form =? POINT_CONVERSION_UNCOMPRESSED)
               || (form =? POINT_CONVERSION_HYBRID))
      then None
      else if ((form =? 0) || (form =? POINT_CONVERSION_UNCOMPRESSED)) && y_bit
      then None
      else if form =? 0 then
        if (len =? 1)%nat then Some None else None
      else
        let field_len := BN_num_bytes (field G) in
        let enc_len :=
          if form =? POINT_CONVERSION_COMPRESSED
          then (1 + field_len)%nat else (1 + 2 * field_len)%nat in
        if negb (len =? enc_len)%nat then None
        else
          let x := BN_bin2bn (take field_len rest) in
          if field G <=? x then None
          else if form =? POINT_CONVERSION_COMPRESSED then
            ec_set_compressed_coordinates G x y_bit
          else
            let y := BN_bin2bn (take field_len (drop field_len rest)) in
            if field G <=? y then None
            else if (form =? POINT_CONVERSION_HYBRID)
                    && negb (Bool.eqb y_bit (BN_is_odd y))
            then None
            else if is_on_curve G (Some (x, y)) then Some (Some (x, y))
            else None
  end.

(** ** The native heap and the interpreter state

    An [EC_POINT*] is a handle into a heap of native objects; [NULL] is the
    absent handle.  A point remembers the curve it was created for. *)

Abbreviation handle := positive (only parsing).

Record EC_POINT := {
  pt_curve_name : Z;
  pt_coords : affine
}.

(** Modelled from the spec: [umbral.curve.Curve], the CurveDescriptor
    [{field_order_size_in_bytes, generator_handle, group_handle}], immutable
    once constructed. *)
Record Curve := {
  ec_group : EC_GROUP;
  generator : handle;
  field_order_size_in_bytes : nat
}.

Record state := {
  heap : gmap handle EC_POINT;
  (* the process-wide default curve of [umbral.config] *)
  config_curve : option Curve;
  (* the random source: the [n]-th draw is [entropy n] *)
  entropy : nat -> Z;
  drawn : nat
}.

Definition set_heap (hp : gmap handle EC_POINT) (s : state) : state :=
  {| heap := hp; config_curve := config_curve s;
     entropy := entropy s; drawn := drawn s |}.

(** Python exceptions.  [InternalError] is what [backend.openssl_assert]
    raises; [ConfigurationError] is the configuration error of the default
    curve. *)
Inductive exn := InternalError | ConfigurationError.

Inductive outcome (A : Type) :=
  | Returns (a : A) (s : state)
  | Raises (e : exn).
Arguments Returns {A} a s.
Arguments Raises {A} e.

Definition M (A : Type) : Type := state -> outcome A.

#[global] Instance M_ret : MRet M := fun A a s => Returns a s.
#[global] Instance M_bind : MBind M := fun A B f m s =>
  match m s with
  | Returns a s' => f a s'
  | Raises e => Raises e
  end.

Definition raise {A : Type} (e : exn) : M A := fun _ => Raises e.

(** [backend.openssl_assert(ok)] *)
Definition openssl_assert (ok : bool) : M unit :=
  if ok then mret tt else raise InternalError.

(** Python's [bool(n)] on an int. *)
Definition py_bool (n : Z) : bool := negb (n =? 0).

(** ** The primitives behind [backend._lib]

    Each primitive first checks that its points are objects of the group
    ([ec_point_is_compat]: same curve name, or none on either side) and
    reports an error otherwise: 0, [NULL], or -1 for the comparison.  None
    of them raises; the source turns the error values into exceptions with
    [openssl_assert]. *)

Definition ec_point_is_compat (pt : EC_POINT) (group : EC_GROUP) : bool :=
  (curve_name group =? 0) || (pt_curve_name pt =? 0)
  || (curve_name group =? pt_curve_name pt).

(** The group element behind a handle that is live and compatible with the
    group; nothing for a dangling or foreign handle. *)
Definition deref (group : EC_GROUP) (h : handle) (s : state) : option EC_POINT :=
  match heap s !! h with
  | Some pt => if ec_point_is_compat pt group then Some pt else None
  | None => None
  end.

(** Write the group element [P] into the object [pt] at [h]. *)
Definition store (h : handle) (pt : EC_POINT) (P : affine) (s : state) : state :=
  set_heap (<[h := {| pt_curve_name := pt_curve_name pt; pt_coords := P |}]> (heap s)) s.

(** [EC_POINT_new]: a new object of the group on an unused handle, at
    infinity. *)
Definition EC_POINT_new (group : EC_GROUP) : M (option handle) := fun s =>
  let h := fresh (dom (heap s)) in
  Returns (Some h)
    (set_heap (<[h := {| pt_curve_name := curve_name group; pt_coords := None |}]> (heap s)) s).

(** [EC_POINT_dup]: a copy of [a] on an unused handle, [NULL] when [a] is
    not a point of the group. *)
Definition EC_POINT_dup (a : handle) (group : EC_GROUP) : M (option handle) := fun s =>
  match deref group a s with
  | Some pt =>
      let h := fresh (dom (heap s)) in
      Returns (Some h) (set_heap (<[h := pt]> (heap s)) s)
  | None => Returns None s
  end.

(** [EC_POINT_mul(group, r, n, q, m, ctx)]: [r := n * generator + m * q];
    the source always passes [NULL] for [n]. *)
Definition EC_POINT_mul (group : EC_GROUP)
    (r : handle) (n : option Z) (q : handle) (m : Z) : M Z := fun s =>
  match deref group r s, deref group q s with
  | Some pr, Some pq =>
      let gn := match n with
                | Some g => ec_mul group g (group_generator group)
                | None => None
                end in
      Returns 1 (store r pr (ec_add group gn (ec_mul group m (pt_coords pq))) s)
  | _, _ => Returns 0 s
  end.

(** [EC_POINT_add(group, r, a, b, ctx)]: [r := a + b]. *)
Definition EC_POINT_add (group : EC_GROUP) (r a b : handle) : M Z := fun s =>
  match deref group r s, deref group a s, deref group b s with
  | Some pr, Some pa, Some pb =>
      Returns 1 (store r pr (ec_add group (pt_coords pa) (pt_coords pb)) s)
  | _, _, _ => Returns 0 s
  end.

(** [EC_POINT_invert(group, a, ctx)]: [a := -a], in place. *)
Definition EC_POINT_invert (group : EC_GROUP) (a : handle) : M Z := fun s =>
  match deref group a s with
  | Some pa => Returns 1 (store a pa (ec_neg group (pt_coords pa)) s)
  | None => Returns 0 s
  end.

(** [EC_POINT_cmp]: 0 when equal, 1 when not, -1 on error. *)
Definition EC_POINT_cmp (group : EC_GROUP) (a b : handle) : M Z := fun s =>
  match deref group a s, deref group b s with
  | Some pa, Some pb =>
      Returns (if decide (pt_coords pa = pt_coords pb) then 0 else 1) s
  | _, _ => Returns (-1) s
  end.

(** [EC_POINT_point2oct]: the number of octets written, 0 on error, and
    the buffer afterwards. *)
Definition EC_POINT_point2oct (group : EC_GROUP) (point : handle) (form : Z)
    (buf : list byte) (len : nat) : M (nat * list byte) := fun s =>
  match deref group point s with
  | Some pt => Returns (ec_point2oct group (pt_coords pt) form buf len) s
  | None => Returns (O, buf) s
  end.

(** [EC_POINT_oct2point]: 1 on success, 0 on error. *)
Definition EC_POINT_oct2point (group : EC_GROUP) (point : handle)
    (buf : list byte) (len : nat) : M Z := fun s =>
  match deref group point s with
  | Some pt =>
      match ec_oct2point group buf len with
      | Some P => Returns 1 (store point pt P s)
      | None => Returns 0 s
      end
  | None => Returns 0 s
  end.

(** Modelled from the spec: the provider's [point_from_affine], reached
    through [umbral.openssl._get_EC_POINT_via_affine]: the coordinates are
    stored, reduced modulo the field order, with no check that the pair
    lies on the curve.  (A native library that checks it makes
    [from_affine] raise on such a pair.) *)
Definition point_from_affine (group : EC_GROUP)
    (point : handle) (x y : Z) : M Z := fun s =>
  match deref group point s with
  | Some pt =>
      Returns 1 (store point pt (Some (x mod field group, y mod field group)) s)
  | None => Returns 0 s
  end.

(** [EC_POINT_get_affine_coordinates_GFp(group, p, x, y, ctx)]: 1, and the
    coordinates of the point written to the big numbers [x] and [y]; 0,
    and the big numbers as they were, for the point at infinity, which has
    no coordinates, and for a point that is not of the group. *)
Definition EC_POINT_get_affine_coordinates_GFp (group : EC_GROUP)
    (p : handle) (x y : Z) : M (Z * (Z * Z)) := fun s =>
  match deref group p s with
  | Some pt =>
      match pt_coords pt with
      | Some (px, py) => Returns (1, (px, py)) s
      | None => Returns (0, (x, y)) s
      end
  | None => Returns (0, (x, y)) s
  end.

(** ** The helpers of [umbral.openssl], [umbral.config] and [umbral.curvebn] *)

(** Modelled from the spec: [umbral.openssl._get_new_EC_POINT], the
    provider's [new_group_element(curve)]: a fresh native point of the
    curve; a [NULL] result is a provider failure. *)
Definition _get_new_EC_POINT (curve : Curve) : M handle :=
  new_point ← EC_POINT_new (ec_group curve);
  match new_point with
  | Some h => mret h
  | None => raise InternalError (* openssl_assert(new_point != NULL) *)
  end.

(** Modelled from the spec: [umbral.openssl._int_to_bn], which turns the
    coordinate values of [from_affine] into big numbers: the same integers
    here. *)
Definition _int_to_bn (py_int : Z) : Z := py_int.

(** Modelled from the spec: [umbral.openssl._get_EC_POINT_via_affine], the
    provider's [point_from_affine]: builds a point directly from coordinate
    values and does not verify that the pair lies on the curve. *)
Definition _get_EC_POINT_via_affine (affine_x affine_y : Z) (curve : Curve)
    : M handle :=
  new_point ← _get_new_EC_POINT curve;
  res ← point_from_affine (ec_group curve) new_point affine_x affine_y;
  openssl_assert (res =? 1);;
  mret new_point.

(** Modelled from the spec: [umbral.openssl._get_affine_coords_via_EC_POINT],
    the provider's [affine_from_point]: the coordinates of a native point
    in two new big numbers; a failure of the native call is a provider
    failure. *)
Definition _get_affine_coords_via_EC_POINT (ec_point : handle) (curve : Curve)
    : M (Z * Z) :=
  let affine_x := 0 in
  let affine_y := 0 in
  out ← EC_POINT_get_affine_coordinates_GFp (ec_group curve) ec_point
          affine_x affine_y;
  let '(res, (affine_x, affine_y)) := out in
  openssl_assert (res =? 1);;
  mret (affine_x, affine_y).

(** [backend._bn_to_int]: the Python int of a big number. *)
Definition _bn_to_int (bn : Z) : Z := bn.

(** Modelled from the spec: [umbral.config.default_curve], the
    CurveContext's [get()]: returns the installed default curve and fails
    with ConfigurationError if none was ever set. *)
Definition default_curve : M Curve := fun s =>
  match config_curve s with
  | Some c => Returns c s
  | None => Raises ConfigurationError
  end.

(** Modelled from the spec: [umbral.curvebn.CurveBN], the Scalar: an
    integer modulo the order of its curve. *)
Record CurveBN := {
  bignum : Z;
  bn_curve : Curve
}.

(** Modelled from the spec: [umbral.curvebn.CurveBN.gen_rand], the
    provider's [random_scalar(curve)]: the next draw of the random source
    as a scalar in [0, curve order). *)
Definition CurveBN_gen_rand (curve : Curve) : M CurveBN := fun s =>
  Returns
    {| bignum := entropy s (drawn s) mod order (ec_group curve);
       bn_curve := curve |}
    {| heap := heap s; config_curve := config_curve s;
       entropy := entropy s; drawn := S (drawn s) |}.

(** ** [class Point]

    One definition per method, statement for statement.  The scratch
    context of [with backend._tmp_bn_ctx() as bn_ctx] holds no state of its
    own and is left out; [ffi.gc] registers a destructor and changes nothing
    the methods observe. *)

Record Point := {
  ec_point : handle;
  curve : Curve
}.

Definition expected_bytes_length (curve : option Curve) (is_compressed : bool)
    : M nat :=
  curve ← match curve with Some c => mret c | None => default_curve end;
  let coord_size := field_order_size_in_bytes curve in
  if is_compressed then mret (1 + coord_size)%nat
  else mret (1 + 2 * coord_size)%nat.

Definition gen_rand (curve : option Curve) : M Point :=
  curve ← match curve with Some c => mret c | None => default_curve end;
  rand_point ← _get_new_EC_POINT curve;
  rand_bn ← CurveBN_gen_rand curve;
  let rand_bn := bignum rand_bn in
  res ← EC_POINT_mul (ec_group curve) rand_point None (generator curve) rand_bn;
  openssl_assert (res =? 1);;
  mret (Build_Point rand_point curve).

Definition from_affine (coords : Z * Z) (curve : option Curve) : M Point :=
  curve ← match curve with Some c => mret c | None => default_curve end;
  let '(affine_x, affine_y) := coords in
  let affine_x := _int_to_bn affine_x in
  let affine_y := _int_to_bn affine_y in
  ec_point ← _get_EC_POINT_via_affine affine_x affine_y curve;
  mret (Build_Point ec_point curve).

Definition to_affine (self : Point) : M (Z * Z) :=
  coords ← _get_affine_coords_via_EC_POINT (ec_point self) (curve self);
  let '(affine_x, affine_y) := coords in
  mret (_bn_to_int affine_x, _bn_to_int affine_y).

Definition from_bytes (data : list byte) (curve : option Curve) : M Point :=
  curve ← match curve with Some c => mret c | None => default_curve end;
  point ← _get_new_EC_POINT curve;
  res ← EC_POINT_oct2point (ec_group curve) point data (length data);
  openssl_assert (res =? 1);;
  mret (Build_Point point curve).

Definition to_bytes (self : Point) (is_compressed : bool) : M (list byte) :=
  len ← expected_bytes_length (Some (curve self)) is_compressed;
  let point_conversion_form :=
    if is_compressed then POINT_CONVERSION_COMPRESSED
    else POINT_CONVERSION_UNCOMPRESSED in
  let bin_ptr := replicate len x00 in
  out ← EC_POINT_point2oct (ec_group (curve self)) (ec_point self)
          point_conversion_form bin_ptr len;
  let '(bin_len, bin_ptr) := out in
  openssl_assert (negb (bin_len =? 0)%nat);;
  mret (take bin_len bin_ptr).

Definition get_generator_from_curve (curve : option Curve) : M Point :=
  curve ← match curve with Some c => mret c | None => default_curve end;
  mret (Build_Point (generator curve) curve).

Definition __eq__ (self other : Point) : M bool :=
  is_equal ← EC_POINT_cmp (ec_group (curve self)) (ec_point self) (ec_point other);
  openssl_assert (negb (is_equal =? -1));;
  (* 1 is not-equal, 0 is equal, -1 is error *)
  mret (negb (py_bool is_equal)).

Definition __mul__ (self : Point) (other : CurveBN) : M Point :=
  prod ← _get_new_EC_POINT (curve self);
  res ← EC_POINT_mul (ec_group (curve self)) prod None (ec_point self) (bignum other);
  openssl_assert (res =? 1);;
  mret (Build_Point prod (curve self)).

Definition __rmul__ := __mul__.

Definition __add__ (self other : Point) : M Point :=
  op_sum ← _get_new_EC_POINT (curve self);
  res ← EC_POINT_add (ec_group (curve self)) op_sum (ec_point self) (ec_point other);
  openssl_assert (res =? 1);;
  mret (Build_Point op_sum (curve self)).

Definition __neg__ (self : Point) : M Point :=
  inv ← EC_POINT_dup (ec_point self) (ec_group (curve self));
  match inv with
  | None => raise InternalError (* openssl_assert(inv != NULL) *)
  | Some inv =>
      res ← EC_POINT_invert (ec_group (curve self)) inv;
      openssl_assert (res =? 1);;
      mret (Build_Point inv (curve self))
  end.

Definition __sub__ (self other : Point) : M Point :=
  neg ← __neg__ other;
  __add__ self neg.

Definition __bytes__ (self : Point) : M (list byte) := to_bytes self true.

(** * Stating the properties *)

(** ** Field and curve *)

(** Congruence modulo the field order. *)
Definition cong (p a b : Z) : Prop := a mod p = b mod p.

(** Coordinates in the range of the field. *)
Definition is_reduced (G : EC_GROUP) (P : affine) : bool :=
  match P with
  | None => true
  | Some (x, y) =>
      (0 <=? x) && (x <? field G) && (0 <=? y) && (y <? field G)
  end.

(** A point of the curve: the point at infinity, or reduced coordinates
    that satisfy the equation. *)
Definition valid_point (G : EC_GROUP) (P : affine) : bool :=
  is_reduced G P && is_on_curve G P.

(** Associativity of the chord-and-tangent addition on the points of a
    curve. *)
Definition ec_add_assoc (G : EC_GROUP) : Prop :=
  forall a b c,
    valid_point G a = true -> valid_point G b = true -> valid_point G c = true ->
    ec_add G (ec_add G a b) c = ec_add G a (ec_add G b c).

(** The points of a curve, by enumeration of the pairs of field elements. *)
Definition curve_points (G : EC_GROUP) : list affine :=
  None :: List.filter (valid_point G)
            (flat_map (fun x => List.map (fun y => Some (x, y)) (seqZ 0 (field G)))
                      (seqZ 0 (field G))).

Definition affine_eqb (a b : affine) : bool :=
  match a, b with
  | None, None => true
  | Some (x, y), Some (x', y') => (x =? x') && (y =? y')
  | _, _ => false
  end.

(** Associativity checked on every triple of points of a small curve. *)
Definition assoc_check (G : EC_GROUP) : bool :=
  let pts := curve_points G in
  forallb (fun a => forallb (fun b => forallb (fun c =>
    affine_eqb (ec_add G (ec_add G a b) c) (ec_add G a (ec_add G b c)))
    pts) pts) pts.

(** Primality by trial division, to check a concrete field order. *)
Definition trial_division (p : Z) : bool :=
  (1 <? p) && forallb (fun n => negb (p mod n =? 0)) (seqZ 2 (p - 2)).

(** ** Octet strings *)

Definition is_form (form : Z) : Prop :=
  form = POINT_CONVERSION_COMPRESSED \/ form = POINT_CONVERSION_UNCOMPRESSED
  \/ form = POINT_CONVERSION_HYBRID.

(** The form [to_bytes] asks for. *)
Definition conversion_form (is_compressed : bool) : Z :=
  if is_compressed then POINT_CONVERSION_COMPRESSED
  else POINT_CONVERSION_UNCOMPRESSED.

(** The SEC1 encoding of a finite point in the given form, and its
    length. *)
Definition sec1_octets (G : EC_GROUP) (x y form : Z) : list byte :=
  let field_len := BN_num_bytes (field G) in
  let b0 :=
    if ((form =? POINT_CONVERSION_COMPRESSED)
        || (form =? POINT_CONVERSION_HYBRID)) && BN_is_odd y
    then form + 1 else form in
  byte_of_Z b0 :: BN_bn2binpad x field_len ++
    (if (form =? POINT_CONVERSION_UNCOMPRESSED) || (form =? POINT_CONVERSION_HYBRID)
     then BN_bn2binpad y field_len else []).

Definition sec1_length (G : EC_GROUP) (form : Z) : nat :=
  if form =? POINT_CONVERSION_COMPRESSED
  then (1 + BN_num_bytes (field G))%nat
  else (1 + 2 * BN_num_bytes (field G))%nat.

(** The decoder by the value [v] of the first byte: what
    [EC_POINT_oct2point] does on [v] followed by [rest]. *)
Definition decode_by_prefix (G : EC_GROUP) (v : Z) (rest : list byte) : option affine :=
  let len := S (length rest) in
  let field_len := BN_num_bytes (field G) in
  if v =? 0 then
    if (len =? 1)%nat then Some None else None
  else if (v =? 2) || (v =? 3) then
    if negb (len =? 1 + field_len)%nat then None
    else
      let x := BN_bin2bn (take field_len rest) in
      if field G <=? x then None
      else ec_set_compressed_coordinates G x (v =? 3)
  else if (v =? 4) || (v =? 6) || (v =? 7) then
    if negb (len =? 1 + 2 * field_len)%nat then None
    else
      let x := BN_bin2bn (take field_len rest) in
      if field G <=? x then None
      else
        let y := BN_bin2bn (take field_len (drop field_len rest)) in
        if field G <=? y then None
        else if negb (v =? 4) && negb (Bool.eqb (v =? 7) (BN_is_odd y)) then None
        else if is_on_curve G (Some (x, y)) then Some (Some (x, y))
        else None
  else None.

(** The length the first byte of an octet string calls for. *)
Definition prefix_length (G : EC_GROUP) (v : Z) : nat :=
  if v =? 0 then 1%nat
  else if (v =? 2) || (v =? 3) then (1 + BN_num_bytes (field G))%nat
  else (1 + 2 * BN_num_bytes (field G))%nat.

(** The octet strings that are not the encoding of a point of the curve:
    the empty string; a first byte other than 00, 02, 03, 04, 06, 07; a
    length other than the one the first byte calls for; coordinates that
    are not those of a point of the curve. *)
Inductive malformed (C : Curve) : list byte -> Prop :=
  | malformed_empty : malformed C []
  | malformed_prefix b0 rest :
      ~ In (byte_to_Z b0) [0; 2; 3; 4; 6; 7] ->
      malformed C (b0 :: rest)
  | malformed_length b0 rest :
      length (b0 :: rest) <> prefix_length (ec_group C) (byte_to_Z b0) ->
      malformed C (b0 :: rest)
  | malformed_pair b0 X Y :
      In (byte_to_Z b0) [4; 6; 7] ->
      length X = BN_num_bytes (field (ec_group C)) ->
      length Y = BN_num_bytes (field (ec_group C)) ->
      valid_point (ec_group C) (Some (BN_bin2bn X, BN_bin2bn Y)) = false ->
      malformed C (b0 :: X ++ Y)
  | malformed_abscissa b0 X :
      In (byte_to_Z b0) [2; 3] ->
      length X = BN_num_bytes (field (ec_group C)) ->
      (forall y, valid_point (ec_group C) (Some (BN_bin2bn X, y)) = false) ->
      malformed C (b0 :: X).

(** ** Handles and states *)

(** The handle [h] is live in [s], belongs to the group [G] and holds the
    group element [g]. *)
Definition denotes (s : state) (G : EC_GROUP) (h : handle) (g : affine) : Prop :=
  exists pt, deref G h s = Some pt /\ pt_coords pt = g.

(** [s'] is [s] after the allocation of the handle [h]: every other handle
    is as it was, and so are the configuration and the random source. *)
Definition allocated (s s' : state) (h : handle) : Prop :=
  heap s !! h = None
  /\ (forall h', h' <> h -> heap s' !! h' = heap s !! h')
  /\ config_curve s' = config_curve s
  /\ entropy s' = entropy s.

(** [s'] keeps every native object of [s]. *)
Definition preserved (s s' : state) : Prop :=
  (forall h pt, heap s !! h = Some pt -> heap s' !! h = Some pt)
  /\ config_curve s' = config_curve s
  /\ entropy s' = entropy s.

(** The state after [EC_POINT_new]. *)
Definition alloc (G : EC_GROUP) (s : state) : state :=
  set_heap (<[fresh (dom (heap s)) :=
              {| pt_curve_name := curve_name G; pt_coords := None |}]> (heap s)) s.

(** The outcome of a run from [s] that left the state as it was, if it
    returned. *)
Definition leaves_state {A : Type} (s : state) (o : outcome A) : Prop :=
  match o with
  | Returns _ s' => s' = s
  | Raises _ => True
  end.

(** The outcome of a run from [s] that returned, if it did, a Point on a
    handle that was not in use in [s], every native object of [s] being
    what it was. *)
Definition fresh_result (s : state) (o : outcome Point) : Prop :=
  match o with
  | Returns R s' => heap s !! ec_point R = None /\ preserved s s'
  | Raises _ => True
  end.

(** ** Well-formed curves and Points *)

(** A curve descriptor as [umbral.curve.Curve] builds it: a curve over an
    odd prime field, whose [field_order_size_in_bytes] is the byte length of
    the field order. *)
Record Curve_ok (C : Curve) : Prop := {
  ok_prime : Z.prime (field (ec_group C));
  ok_odd : 2 < field (ec_group C);
  ok_size : field_order_size_in_bytes C = BN_num_bytes (field (ec_group C))
}.

(** The generator handle of the curve is live and holds a point of the
    curve. *)
Definition generator_ok (C : Curve) (s : state) : Prop :=
  exists g, denotes s (ec_group C) (generator C) g
            /\ valid_point (ec_group C) g = true.

(** The Point [P] of the curve [C] holds the point [g] of the curve. *)
Definition holds (C : Curve) (P : Point) (s : state) (g : affine) : Prop :=
  curve P = C
  /\ denotes s (ec_group C) (ec_point P) g
  /\ valid_point (ec_group C) g = true.

(** The Point [P] of the curve [C] holds a point of the curve in [s]. *)
Definition point_ok (C : Curve) (P : Point) (s : state) : Prop :=
  curve P = C
  /\ exists g, denotes s (ec_group C) (ec_point P) g
               /\ valid_point (ec_group C) g = true.

(** [from_bytes(to_bytes(P, c), C) == P], evaluated from the state [s]. *)
Definition roundtrips (C : Curve) (P : Point) (c : bool) (s : state) : Prop :=
  exists bs Q s',
    to_bytes P c s = Returns bs s
    /\ from_bytes bs (Some C) s = Returns Q s'
    /\ __eq__ Q P s' = Returns true s'.

(** ** The optional curve argument *)

Definition set_config (cfg : option Curve) (s : state) : state :=
  {| heap := heap s; config_curve := cfg; entropy := entropy s; drawn := drawn s |}.

Definition outcome_map {A : Type} (f : state -> state) (o : outcome A) : outcome A :=
  match o with
  | Returns a s => Returns a (f s)
  | Raises e => Raises e
  end.

(** A program that neither reads nor writes the default curve: run under
    another configuration it does the same, and leaves that configuration. *)
Definition config_independent {A : Type} (m : M A) : Prop :=
  forall cfg s, m (set_config cfg s) = outcome_map (set_config cfg) (m s).

(** Without a curve, the operation runs on what [default_curve()] returns,
    and fails as it fails. *)
Definition falls_back {A : Type} (op : option Curve -> M A) : Prop :=
  forall s, op None s = (c ← default_curve; op (Some c)) s.

(** An operation with an optional curve argument that uses the curve it is
    given and falls back to the default curve only without one. *)
Definition resolves_curve {A : Type} (op : option Curve -> M A) : Prop :=
  falls_back op /\ forall C, config_independent (op (Some C)).

(** The curve an optional argument resolves to. *)
Definition resolved (curve : option Curve) (s : state) : option Curve :=
  match curve with
  | Some C => Some C
  | None => config_curve s
  end.

(** ** Two small curves to evaluate the model on

    [y^2 = x^3 + 3x + 16] over the field of 257 elements, a group of prime
    order 251 generated by [(0, 4)], whose coordinates take two bytes; and
    [y^2 = x^3 + x + 6] over the field of 11 elements, of order 13, small
    enough to check associativity on every triple of its points. *)

Definition toy_group : EC_GROUP :=
  {| curve_name := 9001; field := 257; coef_a := 3; coef_b := 16;
     group_generator := Some (0, 4); order := 251 |}.

Definition toy_curve : Curve :=
  {| ec_group := toy_group; generator := 1%positive;
     field_order_size_in_bytes := 2 |}.

(** A second descriptor of the same curve, differing from [toy_curve] in
    its coordinate size. *)
Definition toy_curve_wide : Curve :=
  {| ec_group := toy_group; generator := 1%positive;
     field_order_size_in_bytes := 32 |}.

(** A state where the generator is the only native object, no default
    curve is configured and every random draw is 7. *)
Definition toy_state : state :=
  {| heap := {[ 1%positive := {| pt_curve_name := 9001; pt_coords := Some (0, 4) |} ]};
     config_curve := None;
     entropy := fun _ => 7;
     drawn := 0 |}.

Definition toy_generator : Point := {| ec_point := 1%positive; curve := toy_curve |}.

Definition tiny_group : EC_GROUP :=
  {| curve_name := 9002; field := 11; coef_a := 1; coef_b := 6;
     group_generator := Some (2, 7); order := 13 |}.

Definition tiny_curve : Curve :=
  {| ec_group := tiny_group; generator := 1%positive;
     field_order_size_in_bytes := 1 |}.

(** Three points of the tiny curve. *)
Definition tiny_state : state :=
  {| heap := {[ 1%positive := {| pt_curve_name := 9002; pt_coords := Some (2, 7) |};
                2%positive := {| pt_curve_name := 9002; pt_coords := Some (3, 5) |};
                3%positive := {| pt_curve_name := 9002; pt_coords := Some (5, 2) |} ]};
     config_curve := Some tiny_curve;
     entropy := fun _ => 5;
     drawn := 0 |}.

(** A state with a native point of each of the two curves. *)
Definition mixed_state : state :=
  {| heap := {[ 1%positive := {| pt_curve_name := 9001; pt_coords := Some (0, 4) |};
                2%positive := {| pt_curve_name := 9002; pt_coords := Some (2, 7) |} ]};
     config_curve := None;
     entropy := fun _ => 7;
     drawn := 0 |}.

(** * Proofs *)

(** ** Bytes and big numbers *)

Lemma byte_to_Z_range b : 0 <= byte_to_Z b < 256.
Proof.
  unfold byte_to_Z. pose proof (Byte.to_N_bounded b). lia.
Qed.

Lemma byte_to_of_Z z : byte_to_Z (byte_of_Z z) = z mod 256.
Proof.
  unfold byte_of_Z, byte_to_Z.
  pose proof (Z.mod_pos_bound z 256 eq_refl) as Hr.
  destruct (Byte.of_N (Z.to_N (z mod 256))) as [b|] eqn:E.
  - apply Byte.to_of_N in E. rewrite E. lia.
  - apply Byte.of_N_None_iff in E. lia.
Qed.

Lemma byte_of_to_Z b : byte_of_Z (byte_to_Z b) = b.
Proof.
  unfold byte_of_Z, byte_to_Z.
  pose proof (Byte.to_N_bounded b).
  rewrite Z.mod_small by lia. rewrite N2Z.id, Byte.of_to_N. reflexivity.
Qed.

Lemma BN_bin2bn_snoc s b : BN_bin2bn (s ++ [b]) = BN_bin2bn s * 256 + byte_to_Z b.
Proof. unfold BN_bin2bn. rewrite fold_left_app. reflexivity. Qed.

Lemma length_BN_bn2binpad k : forall x, length (BN_bn2binpad x k) = k.
Proof.
  induction k as [|k IH]; intros x; simpl; [reflexivity|].
  rewrite length_app, IH. simpl. lia.
Qed.

Lemma BN_bin2bn_bn2binpad k : forall x,
  BN_bin2bn (BN_bn2binpad x k) = x mod 256 ^ Z.of_nat k.
Proof.
  induction k as [|k IH]; intros x.
  - simpl. rewrite Z.mod_1_r. reflexivity.
  - cbn [BN_bn2binpad]. rewrite BN_bin2bn_snoc, IH, byte_to_of_Z.
    rewrite Nat2Z.inj_succ, Z.pow_succ_r by lia.
    rewrite Z.rem_mul_r by lia. lia.
Qed.

Lemma BN_bin2bn_nonneg s : 0 <= BN_bin2bn s.
Proof.
  unfold BN_bin2bn. assert (forall acc, 0 <= acc ->
    0 <= fold_left (fun acc b => acc * 256 + byte_to_Z b) s acc) as H.
  { induction s as [|b s IH]; intros acc Hacc; [done|]. cbn. apply IH.
    pose proof (byte_to_Z_range b). lia. }
  apply H. lia.
Qed.

Lemma BN_num_bytes_bound x k :
  0 <= x -> (BN_num_bytes x <= k)%nat -> x < 256 ^ Z.of_nat k.
Proof.
  intros Hx Hk. unfold BN_num_bytes, BN_num_bits in Hk.
  rewrite Z.abs_eq in Hk by lia.
  destruct (Z.eqb_spec x 0) as [->|Hnz].
  - apply Z.pow_pos_nonneg; lia.
  - assert (0 < x) as Hpos by lia.
    pose proof (Z.log2_spec x Hpos) as [_ Hlt].
    pose proof (Z.log2_nonneg x) as Hl.
    assert (Z.log2 x + 1 <= 8 * Z.of_nat k) as Hle.
    { pose proof (Z.div_mod (Z.log2 x + 1 + 7) 8 ltac:(lia)) as Hdm.
      pose proof (Z.mod_pos_bound (Z.log2 x + 1 + 7) 8 ltac:(lia)).
      assert (0 <= (Z.log2 x + 1 + 7) / 8) by (apply Z.div_pos; lia).
      lia. }
    replace (256 ^ Z.of_nat k) with (2 ^ (8 * Z.of_nat k)).
    + eapply Z.lt_le_trans; [|apply Z.pow_le_mono_r; [lia|exact Hle]].
      replace (Z.succ (Z.log2 x)) with (Z.log2 x + 1) in Hlt by lia. exact Hlt.
    + rewrite Z.pow_mul_r by lia. reflexivity.
Qed.

Lemma BN_num_bits_mono x y : 0 <= x <= y -> BN_num_bits x <= BN_num_bits y.
Proof.
  intros Hxy. unfold BN_num_bits. rewrite !Z.abs_eq by lia.
  destruct (Z.eqb_spec x 0) as [->|Hx], (Z.eqb_spec y 0) as [->|Hy]; try lia.
  - pose proof (Z.log2_nonneg y). lia.
  - pose proof (Z.log2_le_mono x y). lia.
Qed.

Lemma BN_num_bytes_mono x y : 0 <= x <= y -> (BN_num_bytes x <= BN_num_bytes y)%nat.
Proof.
  intros Hxy. unfold BN_num_bytes. apply Z2Nat.inj_le.
  - apply Z.div_pos; [|lia]. pose proof (BN_num_bits_mono 0 x). 
    unfold BN_num_bits at 1 in H. simpl in H. lia.
  - apply Z.div_pos; [|lia]. pose proof (BN_num_bits_mono 0 y).
    unfold BN_num_bits at 1 in H. simpl in H. lia.
  - apply Z.div_le_mono; [lia|]. pose proof (BN_num_bits_mono x y). lia.
Qed.

Lemma BN_bin2bn_fits x k :
  0 <= x -> (BN_num_bytes x <= k)%nat -> BN_bin2bn (BN_bn2binpad x k) = x.
Proof.
  intros Hx Hk. rewrite BN_bin2bn_bn2binpad. apply Z.mod_small.
  split; [assumption|]. apply BN_num_bytes_bound; assumption.
Qed.

Lemma take_write_buf buf out n :
  length out = n -> take n (write_buf buf out) = out.
Proof.
  intros <-. unfold write_buf. rewrite take_app_length. reflexivity.
Qed.

Lemma length_write_buf buf out :
  (length out <= length buf)%nat -> length (write_buf buf out) = length buf.
Proof.
  intros H. unfold write_buf. rewrite length_app, length_drop. lia.
Qed.

(** ** Congruence modulo the field order

    A setoid, so that a congruence rewrites under sums and products. *)

#[local] Instance cong_equiv p : Equivalence (cong p).
Proof. unfold cong. split; congruence. Qed.

#[local] Instance cong_add p : Proper (cong p ==> cong p ==> cong p) Z.add.
Proof.
  unfold cong. intros x x' Hx y y' Hy.
  rewrite (Zplus_mod x y), (Zplus_mod x' y'), Hx, Hy. reflexivity.
Qed.

#[local] Instance cong_mul p : Proper (cong p ==> cong p ==> cong p) Z.mul.
Proof.
  unfold cong. intros x x' Hx y y' Hy.
  rewrite (Zmult_mod x y), (Zmult_mod x' y'), Hx, Hy. reflexivity.
Qed.

#[local] Instance cong_opp p : Proper (cong p ==> cong p) Z.opp.
Proof.
  intros x x' Hx. replace (- x) with (-1 * x) by lia.
  replace (- x') with (-1 * x') by lia. rewrite Hx. reflexivity.
Qed.

#[local] Instance cong_sub p : Proper (cong p ==> cong p ==> cong p) Z.sub.
Proof.
  intros x x' Hx y y' Hy. unfold Z.sub. rewrite Hx, Hy. reflexivity.
Qed.

Lemma cong_mod p x : cong p (x mod p) x.
Proof. unfold cong. apply Zmod_mod. Qed.

Lemma cong_divide p x y : cong p x y <-> (p | x - y).
Proof.
  unfold cong. rewrite Z.cong_iff_ex. split; intros [k Hk]; exists k; lia.
Qed.

Lemma cong_small p x y : 0 <= x < p -> 0 <= y < p -> cong p x y -> x = y.
Proof.
  unfold cong. intros Hx Hy H. rewrite !Z.mod_small in H by lia. exact H.
Qed.

Lemma cong_eqb p x y : (x mod p =? y mod p) = true <-> cong p x y.
Proof. unfold cong. apply Z.eqb_eq. Qed.

Lemma cong_eq p x y : cong p x y -> x mod p = y mod p.
Proof. exact id. Qed.

Lemma cong_zero_eqb p x : (x mod p =? 0) = true -> cong p x 0.
Proof.
  unfold cong. intros H%Z.eqb_eq. rewrite H. symmetry. apply Zmod_0_l.
Qed.

Lemma cong_zero_neqb p x : (x mod p =? 0) = false -> ~ cong p x 0.
Proof.
  unfold cong. intros H%Z.eqb_neq Hc. rewrite Zmod_0_l in Hc. contradiction.
Qed.

Lemma cong_prime_mul p x y :
  Z.prime p -> cong p (x * y) 0 -> cong p x 0 \/ cong p y 0.
Proof.
  intros Hp. rewrite !cong_divide, !Z.sub_0_r. apply Z.divide_prime_mul, Hp.
Qed.

Lemma cong_invmod p d : Z.prime p -> ~ cong p d 0 -> cong p (Z.invmod d p * d) 1.
Proof.
  intros Hp Hd. unfold cong in *. rewrite Zmod_0_l in Hd.
  rewrite Z.invmod_prime by assumption.
  destruct Hp as [Hp _]. rewrite Z.mod_small by lia. reflexivity.
Qed.

Lemma cong_cancel p d x :
  Z.prime p -> ~ cong p d 0 -> cong p (d * x) 0 -> cong p x 0.
Proof.
  intros Hp Hd H. destruct (cong_prime_mul _ _ _ Hp H); [contradiction|assumption].
Qed.

#[local] Typeclasses Opaque cong.
#[local] Opaque cong.

(** ** The addition stays on the curve *)

Section curve_arithmetic.
Variable G : EC_GROUP.
Hypothesis prime_field : Z.prime (field G).
Hypothesis odd_field : 2 < field G.

Let p := field G.

Lemma field_pos : 1 < field G.
Proof. exact (proj1 prime_field). Qed.

Lemma is_on_curve_cong x y :
  is_on_curve G (Some (x, y)) = true <-> cong p (y * y) (curve_rhs G x).
Proof. apply cong_eqb. Qed.

Lemma is_reduced_range x y :
  is_reduced G (Some (x, y)) = true <-> 0 <= x < p /\ 0 <= y < p.
Proof. unfold is_reduced, p. rewrite !andb_true_iff. lia. Qed.

Lemma mod_reduced x y : is_reduced G (Some (x mod p, y mod p)) = true.
Proof.
  pose proof field_pos as Hp. apply is_reduced_range.
  split; apply Z.mod_pos_bound; unfold p; lia.
Qed.

Lemma valid_point_neg P : valid_point G P = true -> valid_point G (ec_neg G P) = true.
Proof.
  destruct P as [[x y]|]; [|done]. unfold valid_point.
  rewrite !andb_true_iff. intros [Hr Hc].
  pose proof field_pos as Hp. split.
  - apply is_reduced_range in Hr. apply is_reduced_range.
    split; [lia|]. apply Z.mod_pos_bound. unfold p. lia.
  - apply is_on_curve_cong in Hc. apply is_on_curve_cong.
    fold p. rewrite !cong_mod, <- Hc. apply cong_divide. exists 0. lia.
Qed.

(** The chord through two points of the curve meets it in a third. *)
Lemma chord_on_curve x1 y1 x2 y2 l :
  cong p (y1 * y1) (curve_rhs G x1) ->
  cong p (y2 * y2) (curve_rhs G x2) ->
  ~ cong p (x2 - x1) 0 ->
  cong p (l * (x2 - x1)) (y2 - y1) ->
  let x3 := l * l - x1 - x2 in
  let y3 := l * (x1 - x3) - y1 in
  cong p (y3 * y3) (curve_rhs G x3).
Proof.
  intros H1 H2 Hd Hl x3 y3. unfold curve_rhs in *.
  set (a := coef_a G) in *. set (b := coef_b G) in *.
  assert (cong p (x1 * x1 + x1 * x2 + x2 * x2 + a - l * (y1 + y2)) 0) as H4.
  { apply (cong_cancel p (x2 - x1)); [assumption..|].
    transitivity ((x2 * x2 * x2 + a * x2 + b) - (x1 * x1 * x1 + a * x1 + b)
                  - l * (x2 - x1) * (y1 + y2)).
    { apply cong_divide. exists 0. ring. }
    rewrite <- H1, <- H2, Hl. apply cong_divide. exists 0. ring. }
  apply cong_divide in H1, H4, Hl. apply cong_divide.
  destruct H1 as [k1 H1], H4 as [k4 H4], Hl as [k3 Hl].
  exists (k1 - (x3 - x1) * (k4 - l * k3)).
  transitivity
    ((y1 * y1 - (x1 * x1 * x1 + a * x1 + b))
     - (x3 - x1) * ((x1 * x1 + x1 * x2 + x2 * x2 + a - l * (y1 + y2) - 0)
                    - l * (l * (x2 - x1) - (y2 - y1)))).
  { subst x3 y3. ring. }
  rewrite H1, H4, Hl. ring.
Qed.
(** So does the tangent at a point whose ordinate is not zero. *)
Lemma tangent_on_curve x1 y1 l :
  cong p (y1 * y1) (curve_rhs G x1) ->
  cong p (l * (2 * y1)) (3 * x1 * x1 + coef_a G) ->
  let x3 := l * l - x1 - x1 in
  let y3 := l * (x1 - x3) - y1 in
  cong p (y3 * y3) (curve_rhs G x3).
Proof.
  intros H1 Hl x3 y3. unfold curve_rhs in *.
  set (a := coef_a G) in *. set (b := coef_b G) in *.
  apply cong_divide in H1, Hl. apply cong_divide.
  destruct H1 as [k1 H1], Hl as [k5 Hl].
  exists (k1 + (x3 - x1) * k5).
  transitivity
    ((y1 * y1 - (x1 * x1 * x1 + a * x1 + b))
     + (x3 - x1) * (l * (2 * y1) - (3 * x1 * x1 + a))).
  { subst x3 y3. ring. }
  rewrite H1, Hl. ring.
Qed.

Lemma two_not_zero : ~ cong p 2 0.
Proof.
  intros H%cong_divide. rewrite Z.sub_0_r in H.
  apply Z.divide_pos_le in H; unfold p in *; lia.
Qed.

Lemma valid_point_dbl P : valid_point G P = true -> valid_point G (ec_dbl G P) = true.
Proof.
  destruct P as [[x y]|]; [|done]. unfold valid_point, ec_dbl.
  rewrite andb_true_iff. intros [_ Hc]. fold p.
  destruct (y mod p =? 0) eqn:Hy; [done|].
  apply cong_zero_neqb in Hy. apply is_on_curve_cong in Hc.
  rewrite andb_true_iff. split; [apply mod_reduced|].
  apply is_on_curve_cong. unfold curve_rhs.
  set (l := ((3 * x * x + coef_a G) * Z.invmod (2 * y) p) mod p).
  rewrite !cong_mod.
  apply (tangent_on_curve x y l Hc).
  subst l. rewrite cong_mod, <- Z.mul_assoc, cong_invmod; [apply cong_divide; exists 0; ring|done|].
  intros [H|H]%cong_prime_mul; [|contradiction|done]. exact (two_not_zero H).
Qed.

Lemma valid_point_add P Q :
  valid_point G P = true -> valid_point G Q = true ->
  valid_point G (ec_add G P Q) = true.
Proof.
  intros HP HQ. destruct P as [[x1 y1]|]; [|done].
  destruct Q as [[x2 y2]|]; [|done]. unfold ec_add. fold p.
  destruct ((x2 - x1) mod p =? 0) eqn:Hx.
  { destruct ((y2 - y1) mod p =? 0); [apply valid_point_dbl, HP|done]. }
  apply cong_zero_neqb in Hx. unfold valid_point in *.
  rewrite andb_true_iff in *. destruct HP as [_ HP], HQ as [_ HQ].
  apply is_on_curve_cong in HP, HQ.
  split; [apply mod_reduced|].
  apply is_on_curve_cong. unfold curve_rhs.
  set (l := ((y2 - y1) * Z.invmod (x2 - x1) p) mod p).
  rewrite !cong_mod.
  apply (chord_on_curve x1 y1 x2 y2 l HP HQ Hx).
  subst l. rewrite cong_mod, <- Z.mul_assoc, cong_invmod by done.
  apply cong_divide. exists 0. ring.
Qed.

Lemma valid_point_iter k : forall P,
  valid_point G P = true -> valid_point G (Pos.iter_op (ec_add G) k P) = true.
Proof.
  induction k as [k IH|k IH|]; intros P HP; simpl; [| |done].
  - apply valid_point_add; [done|]. apply IH, valid_point_add; done.
  - apply IH, valid_point_add; done.
Qed.

Lemma valid_point_mul m P :
  valid_point G P = true -> valid_point G (ec_mul G m P) = true.
Proof.
  intros HP. destruct m as [|k|k]; simpl; [done| |].
  - apply valid_point_iter, HP.
  - apply valid_point_neg, valid_point_iter, HP.
Qed.
End curve_arithmetic.

(** ** The addition is commutative *)

Section commutativity.
Variable G : EC_GROUP.
Hypothesis prime_field : Z.prime (field G).

Let p := field G.

Lemma sub_mod_zero x y :
  0 <= x < p -> 0 <= y < p -> ((x - y) mod p =? 0) = (x =? y).
Proof.
  intros Hx Hy. destruct (Z.eqb_spec x y) as [->|Hne].
  - rewrite Z.sub_diag, Zmod_0_l. reflexivity.
  - destruct ((x - y) mod p =? 0) eqn:E; [|reflexivity].
    apply cong_zero_eqb in E. exfalso. apply Hne.
    apply (cong_small p); [done..|].
    transitivity (x - y + y); [apply cong_divide; exists 0; ring|].
    rewrite E. reflexivity.
Qed.

Lemma chord_slope x1 y1 x2 y2 :
  x2 <> x1 -> 0 <= x1 < p -> 0 <= x2 < p ->
  cong p (((y2 - y1) * Z.invmod (x2 - x1) p) mod p * (x2 - x1)) (y2 - y1).
Proof.
  intros Hne Hx1 Hx2. rewrite cong_mod, <- Z.mul_assoc, cong_invmod.
  - apply cong_divide. exists 0. ring.
  - exact prime_field.
  - intros Hc. apply Hne. apply (cong_small p); [done..|].
    transitivity (x2 - x1 + x1); [apply cong_divide; exists 0; ring|].
    rewrite Hc. reflexivity.
Qed.

(** The chord formulas do not depend on the order of the two points. *)
Lemma ec_add_comm a b :
  is_reduced G a = true -> is_reduced G b = true -> ec_add G a b = ec_add G b a.
Proof.
  destruct a as [[x1 y1]|], b as [[x2 y2]|]; try reflexivity.
  intros [Hx1 Hy1]%is_reduced_range [Hx2 Hy2]%is_reduced_range.
  fold p in Hx1, Hy1, Hx2, Hy2. unfold ec_add. fold p.
  rewrite !sub_mod_zero by done.
  rewrite (Z.eqb_sym x1 x2), (Z.eqb_sym y1 y2).
  destruct (Z.eqb_spec x2 x1) as [->|Hx].
  { destruct (Z.eqb_spec y2 y1) as [->|Hy]; reflexivity. }
  pose proof (chord_slope x1 y1 x2 y2 Hx Hx1 Hx2) as Hl.
  pose proof (chord_slope x2 y2 x1 y1 (not_eq_sym Hx) Hx2 Hx1) as Hl'.
  set (l := ((y2 - y1) * Z.invmod (x2 - x1) p) mod p) in *.
  set (l' := ((y1 - y2) * Z.invmod (x1 - x2) p) mod p) in *.
  assert (1 < p) as Hp by apply prime_field.
  assert (l' = l) as ->.
  { apply (cong_small p); [apply Z.mod_pos_bound; lia..|].
    assert (cong p ((l' - l) * (x2 - x1)) 0) as H0.
    { transitivity (- (l' * (x1 - x2)) - l * (x2 - x1));
        [apply cong_divide; exists 0; ring|].
      rewrite Hl, Hl'. apply cong_divide. exists 0. ring. }
    rewrite Z.mul_comm in H0. apply cong_cancel in H0; [|done|].
    - transitivity (l' - l + l); [apply cong_divide; exists 0; ring|].
      rewrite H0. reflexivity.
    - intros Hc. apply Hx. apply (cong_small p); [done..|].
      transitivity (x2 - x1 + x1); [apply cong_divide; exists 0; ring|].
      rewrite Hc. reflexivity. }
  replace (l * l - x2 - x1) with (l * l - x1 - x2) by ring.
  do 2 f_equal. apply cong_eq.
  transitivity (l * (x2 - (l * l - x1 - x2) mod p) - y2
                - (l * (x2 - x1) - (y2 - y1))).
  - apply cong_divide. exists 0. ring.
  - rewrite Hl. apply cong_divide. exists 0. ring.
Qed.
End commutativity.

(** ** Associativity, by enumeration on a small curve *)

Lemma valid_point_enumerated G a : valid_point G a = true -> In a (curve_points G).
Proof.
  intros Hv. destruct a as [[x y]|]; [right|by left].
  apply filter_In. split; [|done].
  unfold valid_point in Hv. apply andb_true_iff in Hv as [[Hx Hy]%is_reduced_range _].
  apply in_flat_map. exists x. split; [apply list_elem_of_In, elem_of_seqZ; lia|].
  apply in_map_iff. exists y. split; [reflexivity|].
  apply list_elem_of_In, elem_of_seqZ. lia.
Qed.

Lemma affine_eqb_eq a b : affine_eqb a b = true -> a = b.
Proof.
  destruct a as [[x y]|], b as [[x' y']|]; try done. cbn.
  intros [->%Z.eqb_eq ->%Z.eqb_eq]%andb_true_iff. reflexivity.
Qed.

Lemma assoc_check_sound G : assoc_check G = true -> ec_add_assoc G.
Proof.
  unfold assoc_check. intros H a b c Ha Hb Hc.
  apply valid_point_enumerated in Ha, Hb, Hc.
  rewrite forallb_forall in H. specialize (H a Ha).
  rewrite forallb_forall in H. specialize (H b Hb).
  rewrite forallb_forall in H. apply affine_eqb_eq, (H c Hc).
Qed.

(** ** Octet strings: square roots and decompression *)

Section sec1.
Variable G : EC_GROUP.
Hypothesis prime_field : Z.prime (field G).
Hypothesis odd_field : 2 < field G.

Let p := field G.
Let k := BN_num_bytes (field G).

Lemma field_odd : Z.odd p = true.
Proof.
  destruct (Z.odd p) eqn:E; [reflexivity|].
  rewrite <- Z.negb_even in E. apply negb_false_iff, Z.even_spec in E.
  destruct E as [q Hq]. destruct prime_field as [_ Hn].
  exfalso. apply (Hn 2); [unfold p in *; lia|]. exists q. unfold p in *. lia.
Qed.

(** Modulo a prime a square has at most two roots, opposite to each other. *)
Lemma square_roots r y :
  0 <= r < p -> 0 <= y < p -> cong p (r * r) (y * y) -> r = y \/ r + y = p.
Proof.
  intros Hr Hy H.
  assert (cong p ((r - y) * (r + y)) 0) as H0.
  { transitivity (r * r - y * y); [apply cong_divide; exists 0; ring|].
    rewrite H. apply cong_divide. exists 0. ring. }
  apply cong_prime_mul in H0 as [H0|H0]; [| |exact prime_field].
  - left. apply (cong_small p); [lia..|].
    transitivity (r - y + y); [apply cong_divide; exists 0; ring|].
    rewrite H0. reflexivity.
  - apply cong_divide in H0 as [q Hq]. rewrite Z.sub_0_r in Hq.
    assert (q = 0 \/ q = 1) as [->| ->] by nia; [left|right]; lia.
Qed.

Lemma BN_mod_sqrt_root a r :
  BN_mod_sqrt a p = Some r -> 0 <= r < p /\ cong p (r * r) a.
Proof.
  unfold BN_mod_sqrt. intros [Hin Hr]%find_some.
  apply list_elem_of_In, elem_of_seqZ in Hin. apply cong_eqb in Hr. split; [lia|done].
Qed.

Lemma BN_mod_sqrt_square a y :
  0 <= y < p -> cong p (y * y) a -> is_Some (BN_mod_sqrt a p).
Proof.
  intros Hy H. destruct (BN_mod_sqrt a p) as [r|] eqn:E; [by eexists|].
  unfold BN_mod_sqrt in E. pose proof (find_none _ _ E y) as E'.
  apply cong_eqb in H. simpl in E'. rewrite E' in H; [done|].
  apply list_elem_of_In, elem_of_seqZ. lia.
Qed.

Lemma BN_mod_sqrt_not_square a :
  (forall y, 0 <= y < p -> ~ cong p (y * y) a) -> BN_mod_sqrt a p = None.
Proof.
  intros H. destruct (BN_mod_sqrt a p) as [r|] eqn:E; [|done].
  apply BN_mod_sqrt_root in E as [Hr Hc]. destruct (H r Hr Hc).
Qed.

(** Decompression returns the ordinate that was compressed. *)
Lemma ec_set_compressed_coordinates_valid x y :
  valid_point G (Some (x, y)) = true ->
  ec_set_compressed_coordinates G x (BN_is_odd y) = Some (Some (x, y)).
Proof.
  unfold valid_point. rewrite andb_true_iff.
  intros [[Hx Hy]%is_reduced_range Hc%is_on_curve_cong].
  fold p in Hx, Hy, Hc. unfold ec_set_compressed_coordinates. fold p.
  rewrite (Z.mod_small x p) by lia.
  destruct (BN_mod_sqrt_square (curve_rhs G x mod p) y Hy) as [r Hr].
  { rewrite cong_mod. exact Hc. }
  rewrite Hr. apply BN_mod_sqrt_root in Hr as [Hr Hrc].
  rewrite cong_mod, <- Hc in Hrc.
  pose proof field_odd as Hodd. unfold BN_is_odd.
  destruct (square_roots r y Hr Hy Hrc) as [->|Hsum].
  - rewrite Bool.eqb_reflx. reflexivity.
  - assert (Z.odd y = negb (Z.odd r)) as Hpar.
    { replace y with (p - r) by lia. rewrite Z.odd_sub, Hodd.
      destruct (Z.odd r); reflexivity. }
    rewrite Hpar. destruct (Z.odd r); simpl.
    + destruct (Z.eqb_spec r 0); [lia|]. do 3 f_equal. lia.
    + destruct (Z.eqb_spec r 0); [lia|]. do 3 f_equal. lia.
Qed.
End sec1.

(** ** Octet strings: decoding an encoding *)

Lemma length_sec1_octets G x y form :
  is_form form -> length (sec1_octets G x y form) = sec1_length G form.
Proof.
  intros [->|[->| ->]]; unfold sec1_octets, sec1_length;
    cbn [length Z.eqb Pos.eqb orb andb POINT_CONVERSION_COMPRESSED
         POINT_CONVERSION_UNCOMPRESSED POINT_CONVERSION_HYBRID];
    rewrite length_app, !length_BN_bn2binpad; cbn [length]; lia.
Qed.

Lemma is_form_conversion_form c : is_form (conversion_form c).
Proof. destruct c; [left|right; left]; reflexivity. Qed.

Section sec1_roundtrip.
Variable G : EC_GROUP.
Hypothesis prime_field : Z.prime (field G).
Hypothesis odd_field : 2 < field G.

Lemma reduced_fits x :
  0 <= x < field G -> (BN_num_bytes x <= BN_num_bytes (field G))%nat.
Proof. intros Hx. apply BN_num_bytes_mono. lia. Qed.

Lemma ec_point2oct_finite x y form buf len :
  is_reduced G (Some (x, y)) = true -> is_form form ->
  (sec1_length G form <= len)%nat ->
  ec_point2oct G (Some (x, y)) form buf len
  = (sec1_length G form, write_buf buf (sec1_octets G x y form)).
Proof.
  intros [Hx Hy]%is_reduced_range Hf Hlen.
  apply reduced_fits in Hx, Hy. unfold ec_point2oct.
  replace (negb _) with false by (destruct Hf as [->|[->| ->]]; reflexivity).
  fold (sec1_length G form).
  destruct (Nat.ltb_spec len (sec1_length G form)); [lia|].
  destruct (Nat.ltb_spec (BN_num_bytes (field G)) (BN_num_bytes x)); [lia|].
  destruct (Nat.ltb_spec (BN_num_bytes (field G)) (BN_num_bytes y)); [lia|].
  reflexivity.
Qed.

Lemma ec_point2oct_short x y form buf len :
  (len < sec1_length G form)%nat ->
  fst (ec_point2oct G (Some (x, y)) form buf len) = O.
Proof.
  intros Hlen. unfold ec_point2oct. destruct (negb _); [reflexivity|].
  fold (sec1_length G form).
  destruct (Nat.ltb_spec len (sec1_length G form)); [reflexivity|lia].
Qed.

Lemma ec_point2oct_infinity form buf len :
  is_form form -> (1 <= len)%nat ->
  ec_point2oct G None form buf len = (1%nat, write_buf buf [x00]).
Proof.
  intros Hf Hlen. unfold ec_point2oct.
  replace (negb _) with false by (destruct Hf as [->|[->| ->]]; reflexivity).
  destruct (Nat.ltb_spec len 1); [lia|reflexivity].
Qed.

Lemma ec_oct2point_infinity : ec_oct2point G [x00] 1 = Some None.
Proof. reflexivity. Qed.

(** Decoding the encoding of a point of the curve gives the point back. *)
Lemma ec_oct2point_sec1_octets x y form :
  valid_point G (Some (x, y)) = true -> is_form form ->
  ec_oct2point G (sec1_octets G x y form) (sec1_length G form)
  = Some (Some (x, y)).
Proof.
  intros Hv Hf. pose proof Hv as Hv'. unfold valid_point in Hv'.
  apply andb_true_iff in Hv' as [Hr Hc].
  pose proof Hr as [Hx Hy]%is_reduced_range.
  pose proof (reduced_fits x Hx) as Hkx. pose proof (reduced_fits y Hy) as Hky.
  unfold ec_oct2point.
  rewrite <- (length_sec1_octets G x y form Hf), firstn_all.
  rewrite (length_sec1_octets G x y form Hf).
  unfold sec1_octets, sec1_length.
  set (k := BN_num_bytes (field G)) in *.
  destruct Hf as [->|[->| ->]];
    unfold POINT_CONVERSION_COMPRESSED, POINT_CONVERSION_UNCOMPRESSED,
      POINT_CONVERSION_HYBRID, BN_is_odd;
    cbn [Z.eqb Pos.eqb orb andb].
  - (* compressed *)
    assert (forall o : bool,
      Z.odd (byte_to_Z (byte_of_Z (if o then 2 + 1 else 2))) = o
      /\ byte_to_Z (byte_of_Z (if o then 2 + 1 else 2)) - (if o then 1 else 0) = 2)
      as Hb by (intros []; split; reflexivity).
    destruct (Hb (Z.odd y)) as [Hb1 Hb2]. rewrite Hb1, Hb2.
    cbn [Z.eqb Pos.eqb orb andb negb].
    rewrite Nat.eqb_refl. cbn [negb]. rewrite app_nil_r.
    rewrite take_ge by (rewrite length_BN_bn2binpad; lia).
    rewrite BN_bin2bn_fits by lia.
    destruct (Z.leb_spec (field G) x); [lia|].
    apply ec_set_compressed_coordinates_valid; assumption.
  - (* uncompressed *)
    change (byte_to_Z (byte_of_Z 4)) with 4.
    change (Z.odd 4) with false. cbn iota. rewrite Z.sub_0_r.
    cbn [Z.eqb Pos.eqb orb andb negb].
    rewrite Nat.eqb_refl. cbn [negb].
    rewrite take_app_length' by (symmetry; apply length_BN_bn2binpad).
    rewrite drop_app_length' by (symmetry; apply length_BN_bn2binpad).
    rewrite take_ge by (rewrite length_BN_bn2binpad; lia).
    rewrite !BN_bin2bn_fits by lia.
    destruct (Z.leb_spec (field G) x); [lia|].
    destruct (Z.leb_spec (field G) y); [lia|].
    rewrite Hc. reflexivity.
  - (* hybrid *)
    assert (forall o : bool,
      Z.odd (byte_to_Z (byte_of_Z (if o then 6 + 1 else 6))) = o
      /\ byte_to_Z (byte_of_Z (if o then 6 + 1 else 6)) - (if o then 1 else 0) = 6)
      as Hb by (intros []; split; reflexivity).
    destruct (Hb (Z.odd y)) as [Hb1 Hb2]. rewrite Hb1, Hb2.
    cbn [Z.eqb Pos.eqb orb andb negb].
    rewrite Nat.eqb_refl. cbn [negb].
    rewrite take_app_length' by (symmetry; apply length_BN_bn2binpad).
    rewrite drop_app_length' by (symmetry; apply length_BN_bn2binpad).
    rewrite take_ge by (rewrite length_BN_bn2binpad; lia).
    rewrite !BN_bin2bn_fits by lia.
    destruct (Z.leb_spec (field G) x); [lia|].
    destruct (Z.leb_spec (field G) y); [lia|].
    rewrite Bool.eqb_reflx. cbn [negb]. rewrite Hc. reflexivity.
Qed.
End sec1_roundtrip.

(** ** Octet strings: what the decoder rejects *)

Lemma ec_oct2point_cons G b0 rest :
  ec_oct2point G (b0 :: rest) (length (b0 :: rest))
  = decode_by_prefix G (byte_to_Z b0) rest.
Proof.
  unfold ec_oct2point. rewrite firstn_all. destruct b0; reflexivity.
Qed.

Lemma decode_by_prefix_malformed C b0 rest :
  malformed C (b0 :: rest) ->
  decode_by_prefix (ec_group C) (byte_to_Z b0) rest = None.
Proof.
  intros H. inversion H as [|? ? Hpre|? ? Hlen|? X Y Hpre HX HY Hv|? X Hpre HX Hv];
    subst; set (G := ec_group C) in *; set (v := byte_to_Z b0) in *;
    unfold decode_by_prefix.
  - (* prefix *)
    cbn [In] in Hpre.
    destruct (Z.eqb_spec v 0); [lia|]. destruct (Z.eqb_spec v 2); [lia|].
    destruct (Z.eqb_spec v 3); [lia|]. destruct (Z.eqb_spec v 4); [lia|].
    destruct (Z.eqb_spec v 6); [lia|]. destruct (Z.eqb_spec v 7); [lia|].
    reflexivity.
  - (* length *)
    unfold prefix_length in Hlen. cbn [length] in Hlen.
    destruct (v =? 0).
    { destruct (Nat.eqb_spec (S (length rest)) 1); [done|reflexivity]. }
    destruct ((v =? 2) || (v =? 3)).
    { destruct (Nat.eqb_spec (S (length rest)) (1 + BN_num_bytes (field G))); done. }
    destruct ((v =? 4) || (v =? 6) || (v =? 7)); [|reflexivity].
    destruct (Nat.eqb_spec (S (length rest)) (1 + 2 * BN_num_bytes (field G))); done.
  - (* a pair that is not a point *)
    set (k := BN_num_bytes (field G)) in *.
    assert ((v =? 0) = false) as -> by (cbn [In] in Hpre; lia).
    assert (((v =? 2) || (v =? 3)) = false) as -> by (cbn [In] in Hpre; lia).
    assert (((v =? 4) || (v =? 6) || (v =? 7)) = true) as -> by (cbn [In] in Hpre; lia).
    rewrite length_app, HX, HY.
    replace (S (k + k) =? 1 + 2 * k)%nat with true by (symmetry; apply Nat.eqb_eq; lia).
    cbn [negb]. rewrite take_app_length', drop_app_length', take_ge by lia.
    pose proof (BN_bin2bn_nonneg X). pose proof (BN_bin2bn_nonneg Y).
    destruct (Z.leb_spec (field G) (BN_bin2bn X)); [done|].
    destruct (Z.leb_spec (field G) (BN_bin2bn Y)); [done|].
    destruct (negb (v =? 4) && _); [done|].
    unfold valid_point in Hv. apply andb_false_iff in Hv as [Hv|Hv].
    + unfold is_reduced in Hv. rewrite !andb_false_iff in Hv. lia.
    + rewrite Hv. reflexivity.
  - (* an abscissa of no point *)
    set (k := BN_num_bytes (field G)) in *.
    assert ((v =? 0) = false) as -> by (cbn [In] in Hpre; lia).
    assert (((v =? 2) || (v =? 3)) = true) as -> by (cbn [In] in Hpre; lia).
    rewrite HX, Nat.eqb_refl. cbn [negb]. rewrite take_ge by lia.
    pose proof (BN_bin2bn_nonneg rest) as Hx0.
    destruct (Z.leb_spec (field G) (BN_bin2bn rest)) as [|Hx]; [done|].
    unfold ec_set_compressed_coordinates.
    rewrite (Z.mod_small (BN_bin2bn rest)) by lia.
    rewrite BN_mod_sqrt_not_square; [reflexivity|].
    intros y Hy Hc. specialize (Hv y). unfold valid_point in Hv.
    apply andb_false_iff in Hv as [Hv|Hv].
    + unfold is_reduced in Hv. rewrite !andb_false_iff in Hv. lia.
    + rewrite cong_mod in Hc. apply is_on_curve_cong in Hc. congruence.
Qed.

(** ** Handles and states *)

Lemma preserved_refl s : preserved s s.
Proof. by repeat split. Qed.

Lemma preserved_trans s1 s2 s3 :
  preserved s1 s2 -> preserved s2 s3 -> preserved s1 s3.
Proof.
  intros (H1 & C1 & E1) (H2 & C2 & E2). repeat split; [|congruence..].
  intros h pt Hh. apply H2, H1, Hh.
Qed.

Lemma allocated_preserved s s' h : allocated s s' h -> preserved s s'.
Proof.
  intros (Hf & Ho & Hc & He). repeat split; [|done..].
  intros h' pt Hh. rewrite Ho; [done|]. intros ->. congruence.
Qed.

Lemma deref_preserved s s' G h pt :
  preserved s s' -> deref G h s = Some pt -> deref G h s' = Some pt.
Proof.
  intros (Hp & _) Hd. unfold deref in *.
  destruct (heap s !! h) as [pt'|] eqn:E; [|done].
  rewrite (Hp _ _ E). exact Hd.
Qed.

Lemma denotes_preserved s s' G h g :
  preserved s s' -> denotes s G h g -> denotes s' G h g.
Proof.
  intros Hp (pt & Hd & Hg). exists pt. split; [|done].
  eapply deref_preserved; eassumption.
Qed.

Lemma denotes_fun s G h g g' : denotes s G h g -> denotes s G h g' -> g = g'.
Proof. intros (pt & Hd & <-) (pt' & Hd' & <-). congruence. Qed.

Lemma denotes_live s G h g : denotes s G h g -> is_Some (heap s !! h).
Proof.
  intros (pt & Hd & _). unfold deref in Hd.
  destruct (heap s !! h); [by eexists|done].
Qed.

Lemma fresh_heap (s : state) : heap s !! fresh (dom (heap s)) = None.
Proof. apply not_elem_of_dom, is_fresh. Qed.

Lemma compat_new G P :
  ec_point_is_compat {| pt_curve_name := curve_name G; pt_coords := P |} G = true.
Proof.
  unfold ec_point_is_compat. cbn [pt_curve_name].
  rewrite Z.eqb_refl. apply orb_true_r.
Qed.

Lemma deref_compat G h s pt :
  deref G h s = Some pt -> heap s !! h = Some pt /\ ec_point_is_compat pt G = true.
Proof.
  unfold deref. destruct (heap s !! h) as [pt'|]; [|done].
  destruct (ec_point_is_compat pt' G) eqn:E; [|done]. intros [= <-]. done.
Qed.

Lemma deref_store_eq G h pt P s :
  ec_point_is_compat pt G = true ->
  deref G h (store h pt P s)
  = Some {| pt_curve_name := pt_curve_name pt; pt_coords := P |}.
Proof.
  intros Hc. unfold deref, store, set_heap. cbn [heap].
  rewrite lookup_insert_eq. unfold ec_point_is_compat in *.
  cbn [pt_curve_name]. rewrite Hc. reflexivity.
Qed.

Lemma deref_store_ne G h h' pt P s :
  h' <> h -> deref G h' (store h pt P s) = deref G h' s.
Proof.
  intros Hne. unfold deref, store, set_heap. cbn [heap].
  rewrite lookup_insert_ne by done. reflexivity.
Qed.

Lemma deref_alloc_new G s :
  deref G (fresh (dom (heap s))) (alloc G s)
  = Some {| pt_curve_name := curve_name G; pt_coords := None |}.
Proof.
  unfold deref, alloc, set_heap. cbn [heap].
  rewrite lookup_insert_eq, compat_new. reflexivity.
Qed.

Lemma deref_alloc_old G G' h s pt :
  deref G' h s = Some pt -> deref G' h (alloc G s) = Some pt.
Proof.
  intros Hd. unfold deref, alloc, set_heap in *. cbn [heap].
  rewrite lookup_insert_ne; [done|]. intros <-.
  rewrite fresh_heap in Hd. done.
Qed.

Lemma allocated_alloc_store G s pt P :
  allocated s (store (fresh (dom (heap s))) pt P (alloc G s)) (fresh (dom (heap s))).
Proof.
  split; [apply fresh_heap|]. split; [|done].
  intros h' Hne. unfold store, alloc, set_heap. cbn [heap].
  rewrite !lookup_insert_ne by done. reflexivity.
Qed.

Lemma allocated_alloc G s : allocated s (alloc G s) (fresh (dom (heap s))).
Proof.
  split; [apply fresh_heap|]. split; [|done].
  intros h' Hne. unfold alloc, set_heap. cbn [heap].
  rewrite lookup_insert_ne by done. reflexivity.
Qed.

Lemma holds_preserved C P s s' g : preserved s s' -> holds C P s g -> holds C P s' g.
Proof.
  intros Hp (HC & Hd & Hv). split; [done|split; [|done]].
  eapply denotes_preserved; eassumption.
Qed.

Lemma point_ok_preserved C P s s' :
  preserved s s' -> point_ok C P s -> point_ok C P s'.
Proof.
  intros Hp (HC & g & Hg & Hv). split; [done|]. exists g. split; [|done].
  eapply denotes_preserved; eassumption.
Qed.

(** ** Running a program *)

(** Running a program: the two cases of a bind. *)
Lemma bind_Returns {A B} (m : M A) (f : A -> M B) s a s' :
  m s = Returns a s' -> (m ≫= f) s = f a s'.
Proof. intros H. unfold mbind, M_bind. rewrite H. reflexivity. Qed.

Lemma bind_Raises {A B} (m : M A) (f : A -> M B) s e :
  m s = Raises e -> (m ≫= f) s = Raises e.
Proof. intros H. unfold mbind, M_bind. rewrite H. reflexivity. Qed.

Lemma bind_inv {A B} (m : M A) (f : A -> M B) s b s' :
  (m ≫= f) s = Returns b s' ->
  exists a s1, m s = Returns a s1 /\ f a s1 = Returns b s'.
Proof.
  unfold mbind, M_bind. destruct (m s) as [a s1|e]; [|done]. by exists a, s1.
Qed.

Ltac run_bind :=
  unfold openssl_assert; unfold mbind, M_bind, mret, M_ret, raise.

Ltac invert_run H :=
  repeat (let a := fresh "a" in let s := fresh "s" in let Ha := fresh "R" in
          apply bind_inv in H as (a & s & Ha & H)).

Lemma resolve_inv (curve : option Curve) s c s' :
  match curve with Some c => mret c | None => default_curve end s = Returns c s' ->
  resolved curve s = Some c /\ s' = s.
Proof.
  destruct curve as [C|]; cbn.
  - intros [= -> ->]. done.
  - unfold default_curve. destruct (config_curve s); [|done]. intros [= -> ->]. done.
Qed.

(** ** What each method does on live points *)

Lemma _get_new_EC_POINT_eq C s :
  _get_new_EC_POINT C s = Returns (fresh (dom (heap s))) (alloc (ec_group C) s).
Proof. reflexivity. Qed.

Lemma __add___spec (P Q : Point) s a b :
  let G := ec_group (curve P) in
  denotes s G (ec_point P) a -> denotes s G (ec_point Q) b ->
  exists R s',
    __add__ P Q s = Returns R s'
    /\ curve R = curve P
    /\ denotes s' G (ec_point R) (ec_add G a b)
    /\ allocated s s' (ec_point R).
Proof.
  intros G (pa & Ha & <-) (pb & Hb & <-).
  set (h := fresh (dom (heap s))).
  set (pr := {| pt_curve_name := curve_name G; pt_coords := None |}).
  exists (Build_Point h (curve P)),
    (store h pr (ec_add G (pt_coords pa) (pt_coords pb)) (alloc G s)).
  split; [|split; [done|split]].
  - unfold __add__. run_bind. rewrite _get_new_EC_POINT_eq.
    unfold EC_POINT_add. fold G.
    rewrite deref_alloc_new, (deref_alloc_old _ _ _ _ _ Ha),
      (deref_alloc_old _ _ _ _ _ Hb). reflexivity.
  - eexists. split; [apply deref_store_eq, compat_new|reflexivity].
  - apply allocated_alloc_store.
Qed.

Lemma __neg___spec (P : Point) s a :
  let G := ec_group (curve P) in
  denotes s G (ec_point P) a ->
  exists R s',
    __neg__ P s = Returns R s'
    /\ curve R = curve P
    /\ denotes s' G (ec_point R) (ec_neg G a)
    /\ allocated s s' (ec_point R).
Proof.
  intros G (pa & Ha & <-).
  set (h := fresh (dom (heap s))).
  exists (Build_Point h (curve P)),
    (store h pa (ec_neg G (pt_coords pa)) (set_heap (<[h := pa]> (heap s)) s)).
  destruct (deref_compat _ _ _ _ Ha) as [Hl Hc].
  assert (deref G h (set_heap (<[h:=pa]> (heap s)) s) = Some pa) as Hh.
  { unfold deref, set_heap. cbn [heap]. rewrite lookup_insert_eq, Hc. done. }
  split; [|split; [done|split]].
  - unfold __neg__, EC_POINT_dup. run_bind. fold G. rewrite Ha.
    unfold EC_POINT_invert. fold h. rewrite Hh. reflexivity.
  - eexists. split; [apply deref_store_eq, Hc|reflexivity].
  - split; [apply fresh_heap|]. split; [|done].
    intros h' Hne. unfold store, set_heap. cbn [heap].
    rewrite !lookup_insert_ne by done. reflexivity.
Qed.

Lemma __eq___spec (P Q : Point) s a b :
  let G := ec_group (curve P) in
  denotes s G (ec_point P) a -> denotes s G (ec_point Q) b ->
  __eq__ P Q s = Returns (bool_decide (a = b)) s.
Proof.
  intros G (pa & Ha & <-) (pb & Hb & <-).
  unfold __eq__, EC_POINT_cmp. run_bind. fold G. rewrite Ha, Hb.
  unfold py_bool.
  destruct (decide (pt_coords pa = pt_coords pb)) as [e|n];
    [rewrite (bool_decide_eq_true_2 _ e)|rewrite (bool_decide_eq_false_2 _ n)];
    reflexivity.
Qed.

Lemma __mul___spec (P : Point) (n : CurveBN) s a :
  let G := ec_group (curve P) in
  denotes s G (ec_point P) a ->
  exists R s',
    __mul__ P n s = Returns R s'
    /\ curve R = curve P
    /\ denotes s' G (ec_point R) (ec_mul G (bignum n) a)
    /\ allocated s s' (ec_point R).
Proof.
  intros G (pa & Ha & <-).
  set (h := fresh (dom (heap s))).
  set (pr := {| pt_curve_name := curve_name G; pt_coords := None |}).
  exists (Build_Point h (curve P)),
    (store h pr (ec_mul G (bignum n) (pt_coords pa)) (alloc G s)).
  split; [|split; [done|split]].
  - unfold __mul__. run_bind. rewrite _get_new_EC_POINT_eq.
    unfold EC_POINT_mul. fold G.
    rewrite deref_alloc_new, (deref_alloc_old _ _ _ _ _ Ha). reflexivity.
  - eexists. split; [apply deref_store_eq, compat_new|reflexivity].
  - apply allocated_alloc_store.
Qed.

Lemma gen_rand_spec (C : Curve) s g :
  let G := ec_group C in
  denotes s G (generator C) g ->
  exists R s',
    gen_rand (Some C) s = Returns R s'
    /\ curve R = C
    /\ denotes s' G (ec_point R) (ec_mul G (entropy s (drawn s) mod order G) g)
    /\ allocated s s' (ec_point R).
Proof.
  intros G (pg & Hg & <-).
  set (h := fresh (dom (heap s))).
  set (pr := {| pt_curve_name := curve_name G; pt_coords := None |}).
  set (s1 := {| heap := heap (alloc G s); config_curve := config_curve (alloc G s);
                entropy := entropy (alloc G s); drawn := S (drawn (alloc G s)) |}).
  exists (Build_Point h C),
    (store h pr (ec_mul G (entropy s (drawn s) mod order G) (pt_coords pg)) s1).
  assert (deref G h s1 = Some pr) as Hh by apply deref_alloc_new.
  assert (deref G (generator C) s1 = Some pg) as Hg1
    by apply (deref_alloc_old G G _ _ _ Hg).
  split; [|split; [done|split]].
  - unfold gen_rand. run_bind. rewrite _get_new_EC_POINT_eq.
    unfold CurveBN_gen_rand, EC_POINT_mul. cbn [bignum]. fold G s1 h.
    rewrite Hh, Hg1. reflexivity.
  - eexists. split; [apply deref_store_eq, compat_new|reflexivity].
  - split; [apply fresh_heap|]. split; [|done].
    intros h' Hne. unfold store, s1, alloc, set_heap. cbn [heap].
    rewrite !lookup_insert_ne by done. reflexivity.
Qed.

Lemma get_generator_from_curve_eq (C : Curve) s :
  get_generator_from_curve (Some C) s = Returns (Build_Point (generator C) C) s.
Proof. reflexivity. Qed.

Lemma from_bytes_decoded (data : list byte) (C : Curve) s g :
  let G := ec_group C in
  ec_oct2point G data (length data) = Some g ->
  exists R s',
    from_bytes data (Some C) s = Returns R s'
    /\ curve R = C
    /\ denotes s' G (ec_point R) g
    /\ allocated s s' (ec_point R).
Proof.
  intros G Hdec.
  set (h := fresh (dom (heap s))).
  set (pr := {| pt_curve_name := curve_name G; pt_coords := None |}).
  exists (Build_Point h C), (store h pr g (alloc G s)).
  split; [|split; [done|split]].
  - unfold from_bytes. run_bind. rewrite _get_new_EC_POINT_eq.
    unfold EC_POINT_oct2point. fold G. rewrite deref_alloc_new, Hdec. reflexivity.
  - eexists. split; [apply deref_store_eq, compat_new|reflexivity].
  - apply allocated_alloc_store.
Qed.

Lemma from_bytes_rejected (data : list byte) (C : Curve) s :
  ec_oct2point (ec_group C) data (length data) = None ->
  from_bytes data (Some C) s = Raises InternalError.
Proof.
  intros Hdec. unfold from_bytes. run_bind. rewrite _get_new_EC_POINT_eq.
  unfold EC_POINT_oct2point. rewrite deref_alloc_new, Hdec. reflexivity.
Qed.

Lemma expected_bytes_length_eq (C : Curve) (c : bool) s :
  expected_bytes_length (Some C) c s
  = Returns (if c then 1 + field_order_size_in_bytes C
             else 1 + 2 * field_order_size_in_bytes C)%nat s.
Proof. destruct c; reflexivity. Qed.

Lemma sec1_length_conversion_form (C : Curve) (c : bool) :
  field_order_size_in_bytes C = BN_num_bytes (field (ec_group C)) ->
  sec1_length (ec_group C) (conversion_form c)
  = (if c then 1 + field_order_size_in_bytes C
     else 1 + 2 * field_order_size_in_bytes C)%nat.
Proof. intros ->. destruct c; reflexivity. Qed.

Lemma to_bytes_finite (P : Point) (c : bool) s x y :
  let G := ec_group (curve P) in
  field_order_size_in_bytes (curve P) = BN_num_bytes (field G) ->
  denotes s G (ec_point P) (Some (x, y)) ->
  is_reduced G (Some (x, y)) = true ->
  to_bytes P c s = Returns (sec1_octets G x y (conversion_form c)) s.
Proof.
  intros G Hsize (pt & Hd & Hg) Hr.
  pose proof (sec1_length_conversion_form (curve P) c Hsize) as Hlen. fold G in Hlen.
  unfold to_bytes. run_bind. rewrite expected_bytes_length_eq.
  unfold EC_POINT_point2oct. fold G. rewrite Hd, Hg.
  fold (conversion_form c). rewrite <- Hlen.
  rewrite ec_point2oct_finite by (done || apply is_form_conversion_form).
  rewrite take_write_buf by (apply length_sec1_octets, is_form_conversion_form).
  destruct c; reflexivity.
Qed.

Lemma to_bytes_infinity (P : Point) (c : bool) s :
  let G := ec_group (curve P) in
  denotes s G (ec_point P) None ->
  to_bytes P c s = Returns [x00] s.
Proof.
  intros G (pt & Hd & Hg).
  unfold to_bytes. run_bind. rewrite expected_bytes_length_eq.
  unfold EC_POINT_point2oct. fold G. rewrite Hd, Hg.
  fold (conversion_form c).
  rewrite ec_point2oct_infinity
    by (apply is_form_conversion_form || (destruct c; lia)).
  destruct c; reflexivity.
Qed.

Lemma add_holds C P Q s a b :
  Curve_ok C -> holds C P s a -> holds C Q s b ->
  exists R s',
    __add__ P Q s = Returns R s'
    /\ holds C R s' (ec_add (ec_group C) a b)
    /\ preserved s s'.
Proof.
  intros [Hp Ho _] (<- & Ha & Hva) (HQ & Hb & Hvb).
  destruct (__add___spec P Q s a b Ha Hb) as (R & s' & Hadd & HR & HdR & Hal).
  exists R, s'. split; [done|]. split; [|eapply allocated_preserved, Hal].
  split; [done|split; [done|]]. apply valid_point_add; assumption.
Qed.

Lemma eq_holds C P Q s a b :
  holds C P s a -> holds C Q s b ->
  __eq__ P Q s = Returns (bool_decide (a = b)) s.
Proof.
  intros (<- & Ha & _) (_ & Hb & _). apply __eq___spec; assumption.
Qed.

(** ** The small curves *)

Lemma trial_division_prime p : trial_division p = true -> Z.prime p.
Proof.
  unfold trial_division. rewrite andb_true_iff, forallb_forall.
  intros [Hp Hall]. split; [lia|]. intros n Hn Hdiv.
  assert (In n (seqZ 2 (p - 2))) as Hin by (apply list_elem_of_In, elem_of_seqZ; lia).
  apply Hall in Hin. apply negb_true_iff, Z.eqb_neq in Hin.
  apply Hin, Z.mod_divide; [lia|done].
Qed.

Lemma toy_curve_ok : Curve_ok toy_curve.
Proof.
  split; [apply trial_division_prime; vm_compute; reflexivity
         |reflexivity|reflexivity].
Qed.

Lemma toy_generator_denotes :
  denotes toy_state toy_group 1%positive (Some (0, 4)).
Proof. eexists. split; vm_compute; reflexivity. Qed.

Lemma toy_generator_ok : generator_ok toy_curve toy_state.
Proof. exists (Some (0, 4)). split; [apply toy_generator_denotes|reflexivity]. Qed.

Lemma toy_generator_point_ok : point_ok toy_curve toy_generator toy_state.
Proof.
  split; [reflexivity|]. exists (Some (0, 4)).
  split; [apply toy_generator_denotes|reflexivity].
Qed.

(** The difference of the generator of the small curve with itself is the
    point at infinity, a Point of the curve like any other. *)
Lemma toy_difference :
  exists Z s1,
    __sub__ toy_generator toy_generator toy_state = Returns Z s1
    /\ curve Z = toy_curve
    /\ denotes s1 toy_group (ec_point Z) None.
Proof.
  destruct (__neg___spec toy_generator toy_state _ toy_generator_denotes)
    as (N & s0 & Hneg & HN & HdN & Hal0).
  pose proof (denotes_preserved _ _ _ _ _ (allocated_preserved _ _ _ Hal0)
                toy_generator_denotes) as HdG.
  destruct (__add___spec toy_generator N s0 _ _ HdG HdN)
    as (Z & s1 & Hadd & HZ & HdZ & _).
  exists Z, s1. split; [|split; [done|exact HdZ]].
  unfold __sub__. rewrite (bind_Returns _ _ _ _ _ Hneg). exact Hadd.
Qed.

Lemma tiny_curve_ok : Curve_ok tiny_curve.
Proof.
  split; [apply trial_division_prime; vm_compute; reflexivity
         |reflexivity|reflexivity].
Qed.

Lemma tiny_assoc : ec_add_assoc tiny_group.
Proof. apply assoc_check_sound. vm_compute. reflexivity. Qed.

Lemma tiny_point_ok (h : positive) (g : affine) :
  heap tiny_state !! h = Some {| pt_curve_name := 9002; pt_coords := g |} ->
  valid_point tiny_group g = true ->
  point_ok tiny_curve {| ec_point := h; curve := tiny_curve |} tiny_state.
Proof.
  intros Hh Hv. split; [reflexivity|]. exists g. split; [|done].
  eexists. unfold deref. cbn [ec_point]. rewrite Hh. split; reflexivity.
Qed.

(** * The properties *)

(** ** Serialization *)

Lemma point_ok_roundtrips C P c s :
  Curve_ok C -> point_ok C P s -> roundtrips C P c s.
Proof.
  intros [Hp Ho Hs] (<- & g & Hg & Hv). unfold roundtrips.
  set (G := ec_group (curve P)) in *.
  assert (exists bs, to_bytes P c s = Returns bs s
                     /\ ec_oct2point G bs (length bs) = Some g) as (bs & Hto & Hdec).
  { destruct g as [[x y]|].
    - exists (sec1_octets G x y (conversion_form c)). split.
      + apply to_bytes_finite; [done..|].
        unfold valid_point in Hv. apply andb_true_iff in Hv as [Hr _]. exact Hr.
      + rewrite length_sec1_octets by apply is_form_conversion_form.
        apply ec_oct2point_sec1_octets; [done..|apply is_form_conversion_form].
    - exists [x00]. split; [apply to_bytes_infinity; done|reflexivity]. }
  destruct (from_bytes_decoded bs (curve P) s g Hdec) as (Q & s' & Hfrom & HC & HQ & Hal).
  exists bs, Q, s'. split; [done|split; [done|]].
  apply allocated_preserved in Hal.
  pose proof (denotes_preserved _ _ _ _ _ Hal Hg) as Hg'.
  rewrite (__eq___spec Q P s' g g); [by rewrite bool_decide_eq_true_2| |];
    rewrite HC; assumption.
Qed.

(** C1. Round trip: for the Point [P] that [gen_rand] or
    [get_generator_from_curve] produces over a curve [C], and for either
    value of the compressed flag, [to_bytes] returns an octet string that
    [from_bytes] decodes over [C] to a Point that compares equal to [P]. *)
Theorem serialization_roundtrip (C : Curve) (c : bool) (s : state) :
  Curve_ok C -> generator_ok C s ->
  (exists P s1, gen_rand (Some C) s = Returns P s1 /\ roundtrips C P c s1)
  /\ (exists P, get_generator_from_curve (Some C) s = Returns P s
                /\ roundtrips C P c s).
Proof.
  intros Hok (g & Hg & Hv). split.
  - destruct (gen_rand_spec C s g Hg) as (P & s1 & Hgen & HC & HP & _).
    exists P, s1. split; [done|].
    apply point_ok_roundtrips; [done|]. split; [done|]. eexists. split; [done|].
    destruct Hok. apply valid_point_mul; assumption.
  - exists (Build_Point (generator C) C). split; [reflexivity|].
    apply point_ok_roundtrips; [done|]. split; [done|]. by exists g.
Qed.

Lemma serialization_roundtrip_witness :
  (exists P s1, gen_rand (Some toy_curve) toy_state = Returns P s1
                /\ roundtrips toy_curve P true s1)
  /\ (exists P, get_generator_from_curve (Some toy_curve) toy_state = Returns P toy_state
                /\ roundtrips toy_curve P true toy_state).
Proof.
  exact (serialization_roundtrip toy_curve true toy_state
           toy_curve_ok toy_generator_ok).
Defined.

(** C2, counterexample.  On the small curve, whose byte strings should
    have 3 bytes when compressed, the Point [G - G] is a Point of the curve
    and is serialized as the single byte 0. *)
Lemma to_bytes_length_counterexample :
  exists Z s1,
    __sub__ toy_generator toy_generator toy_state = Returns Z s1
    /\ point_ok toy_curve Z s1
    /\ to_bytes Z true s1 = Returns [x00] s1
    /\ expected_bytes_length (Some toy_curve) true s1 = Returns 3%nat s1.
Proof.
  destruct toy_difference as (Z & s1 & Hsub & HZ & HdZ).
  exists Z, s1. split; [done|]. split; [|split].
  - split; [done|]. exists None. split; [done|reflexivity].
  - apply to_bytes_infinity. rewrite HZ. exact HdZ.
  - reflexivity.
Qed.

(** C2, amended. [expected_bytes_length] is [1 + k] compressed and
    [1 + 2k] uncompressed, [k] the curve's [field_order_size_in_bytes]; and
    for every Point of the curve other than the point at infinity
    [to_bytes] returns a byte string of exactly that length.  For the point
    at infinity [to_bytes] returns the single byte 0. *)
Theorem to_bytes_length (C : Curve) (P : Point) (c : bool) (s : state) (g : affine) :
  field_order_size_in_bytes C = BN_num_bytes (field (ec_group C)) ->
  curve P = C -> denotes s (ec_group C) (ec_point P) g ->
  is_reduced (ec_group C) g = true ->
  let k := field_order_size_in_bytes C in
  (expected_bytes_length (Some C) true s = Returns (1 + k)%nat s
   /\ expected_bytes_length (Some C) false s = Returns (1 + 2 * k)%nat s)
  /\ (g <> None ->
      exists bs, to_bytes P c s = Returns bs s
                 /\ expected_bytes_length (Some C) c s = Returns (length bs) s)
  /\ (g = None -> to_bytes P c s = Returns [x00] s).
Proof.
  intros Hsize <- Hd Hr k. split; [split; reflexivity|]. split.
  - destruct g as [[x y]|]; [intros _|done].
    exists (sec1_octets (ec_group (curve P)) x y (conversion_form c)).
    split; [apply to_bytes_finite; assumption|].
    rewrite length_sec1_octets by apply is_form_conversion_form.
    rewrite sec1_length_conversion_form by assumption.
    apply expected_bytes_length_eq.
  - intros ->. apply to_bytes_infinity. exact Hd.
Qed.

Lemma to_bytes_length_witness :
  (expected_bytes_length (Some toy_curve) true toy_state = Returns 3%nat toy_state
   /\ expected_bytes_length (Some toy_curve) false toy_state = Returns 5%nat toy_state)
  /\ (Some (0, 4) <> None ->
      exists bs, to_bytes toy_generator true toy_state = Returns bs toy_state
                 /\ expected_bytes_length (Some toy_curve) true toy_state
                    = Returns (length bs) toy_state)
  /\ (Some (0, 4) = None -> to_bytes toy_generator true toy_state = Returns [x00] toy_state).
Proof.
  exact (to_bytes_length toy_curve toy_generator true toy_state (Some (0, 4))
           eq_refl eq_refl toy_generator_denotes eq_refl).
Defined.

(** ** Malformed octet strings *)

Lemma from_bytes_malformed_raises C data s :
  malformed C data -> from_bytes data (Some C) s = Raises InternalError.
Proof.
  intros H. apply from_bytes_rejected. destruct data as [|b0 rest]; [reflexivity|].
  rewrite ec_oct2point_cons. apply decode_by_prefix_malformed, H.
Qed.

(** A buffer one byte short of the expected length is malformed, on a
    curve whose coordinates take two bytes or more. *)
Lemma truncated_malformed C data (c : bool) :
  (2 <= BN_num_bytes (field (ec_group C)))%nat ->
  S (length data) = sec1_length (ec_group C) (conversion_form c) ->
  malformed C data.
Proof.
  intros Hk Hlen. destruct data as [|b0 rest]; [constructor|].
  apply malformed_length. unfold prefix_length.
  unfold sec1_length in Hlen.
  destruct (byte_to_Z b0 =? 0), ((byte_to_Z b0 =? 2) || (byte_to_Z b0 =? 3)), c;
    cbn in Hlen |- *; lia.
Qed.

(** C3, counterexample.  Over the small curve, whose byte strings have 3
    or 5 bytes, the one-byte string 00 has neither length and [from_bytes]
    accepts it, as the point at infinity.  And what [from_bytes] raises on
    a truncated buffer is what [__eq__] raises when the comparison fails:
    malformed input has no error of its own. *)
Lemma from_bytes_counterexample :
  (exists P s',
      from_bytes [x00] (Some toy_curve) toy_state = Returns P s'
      /\ denotes s' toy_group (ec_point P) None
      /\ expected_bytes_length (Some toy_curve) true toy_state = Returns 3%nat toy_state
      /\ expected_bytes_length (Some toy_curve) false toy_state = Returns 5%nat toy_state)
  /\ from_bytes [x02; x00] (Some toy_curve) toy_state = Raises InternalError
  /\ __eq__ toy_generator {| ec_point := 5%positive; curve := toy_curve |} toy_state
     = Raises InternalError.
Proof.
  split; [|split; vm_compute; reflexivity].
  destruct (from_bytes_decoded [x00] toy_curve toy_state None eq_refl)
    as (P & s' & Hfrom & _ & Hd & _).
  exists P, s'. split; [done|split; [done|split; reflexivity]].
Qed.

(** C3, amended. [from_bytes] raises on every malformed octet string: an
    empty one, one whose first byte is none of 00, 02, 03, 04, 06, 07, one
    whose length is not the length its first byte calls for (so, on a curve
    with coordinates of two bytes or more, a buffer one byte short of
    [expected_bytes_length]), one whose coordinates are not those of a
    point of the curve.  What it raises is the [InternalError] of
    [openssl_assert], the only error [from_bytes] raises on a given curve
    and the one every other failed native call raises. *)
Theorem from_bytes_malformed (C : Curve) (data : list byte) (s : state) :
  field_order_size_in_bytes C = BN_num_bytes (field (ec_group C)) ->
  (malformed C data -> from_bytes data (Some C) s = Raises InternalError)
  /\ (forall c : bool,
        (2 <= field_order_size_in_bytes C)%nat ->
        expected_bytes_length (Some C) c s = Returns (S (length data)) s ->
        from_bytes data (Some C) s = Raises InternalError)
  /\ (forall e, from_bytes data (Some C) s = Raises e -> e = InternalError).
Proof.
  intros Hsize. split; [apply from_bytes_malformed_raises|split].
  - intros c Hk Hlen. apply from_bytes_malformed_raises, (truncated_malformed C data c).
    + rewrite <- Hsize. exact Hk.
    + rewrite expected_bytes_length_eq in Hlen. injection Hlen as Hlen.
      rewrite sec1_length_conversion_form by exact Hsize. symmetry. exact Hlen.
  - intros e. unfold from_bytes. run_bind. rewrite _get_new_EC_POINT_eq.
    unfold EC_POINT_oct2point. rewrite deref_alloc_new.
    destruct (ec_oct2point _ _ _); cbn; [done|]. intros [= <-]. reflexivity.
Qed.

Lemma from_bytes_malformed_witness :
  malformed toy_curve [x02; x00]
  /\ from_bytes [x02; x00] (Some toy_curve) toy_state = Raises InternalError.
Proof.
  assert (malformed toy_curve [x02; x00]) as H
    by (apply malformed_length; vm_compute; lia).
  split; [exact H|].
  exact (proj1 (from_bytes_malformed toy_curve [x02; x00] toy_state eq_refl) H).
Defined.

(** The hybrid form of the generator, first byte 06, is accepted as
    well. *)
Example from_bytes_hybrid_accepted :
  exists P s',
    from_bytes [x06; x00; x00; x00; x04] (Some toy_curve) toy_state = Returns P s'
    /\ denotes s' toy_group (ec_point P) (Some (0, 4)).
Proof.
  destruct (from_bytes_decoded [x06; x00; x00; x00; x04] toy_curve toy_state
              (Some (0, 4)) eq_refl) as (P & s' & Hfrom & _ & Hd & _).
  by exists P, s'.
Qed.

(** The truncated buffer of the witness does raise, and so does an
    uncompressed string whose coordinates are not on the curve. *)
Example from_bytes_truncated_raises :
  from_bytes [x02; x00] (Some toy_curve) toy_state = Raises InternalError.
Proof. vm_compute. reflexivity. Qed.

Example from_bytes_off_curve_raises :
  from_bytes [x04; x00; x01; x00; x01] (Some toy_curve) toy_state
  = Raises InternalError.
Proof. vm_compute. reflexivity. Qed.

(** ** Equality *)

(** C4. [__eq__] returns true exactly when [EC_POINT_cmp] returns 0; when
    [EC_POINT_cmp] returns its error value -1, [__eq__] raises (the
    [InternalError] of [openssl_assert]) and returns nothing; it returns
    false only for a result that is neither 0 nor -1. *)
Theorem eq_follows_cmp (self other : Point) (s : state) :
  let cmp := EC_POINT_cmp (ec_group (curve self)) (ec_point self) (ec_point other) in
  (forall s', __eq__ self other s = Returns true s' <-> cmp s = Returns 0 s')
  /\ (forall s', cmp s = Returns (-1) s' -> __eq__ self other s = Raises InternalError)
  /\ (forall s', __eq__ self other s = Returns false s' <->
                 exists r, cmp s = Returns r s' /\ r <> 0 /\ r <> -1).
Proof.
  intros cmp. unfold __eq__. run_bind. fold cmp.
  destruct (cmp s) as [r s1|e]; [|split; [|split]].
  - unfold py_bool.
    destruct (Z.eqb_spec r (-1)) as [->|Hm]; [|destruct (Z.eqb_spec r 0) as [->|Hz]];
      cbn [negb]; (split; [|split]); intros s'.
    + split; intros [=].
    + reflexivity.
    + split; [intros [=]|]. intros (r & [= <- <-] & _ & Hr). done.
    + split; intros [= <-]; reflexivity.
    + intros [=].
    + split; [intros [=]|]. intros (r & [= <- <-] & Hr & _). done.
    + split; [intros [=]|]. intros [= -> ->]. done.
    + intros [= -> ->]. done.
    + split; [intros [= <-]; by exists r|]. intros (r' & [= <- <-] & _). done.
  - intros s'. split; intros [=].
  - intros s' [=].
  - intros s'. split; [intros [=]|]. intros (r & [=] & _).
Qed.

(** The error value does arise: comparing with a handle that is not a
    native point of the curve makes the comparison fail, and [__eq__]
    raise. *)
Example eq_dangling_raises :
  __eq__ toy_generator {| ec_point := 5%positive; curve := toy_curve |} toy_state
  = Raises InternalError.
Proof. vm_compute. reflexivity. Qed.

(** ** Subtraction and negation *)

(** C5. [P - Q] is [P + (-Q)]: [__sub__] is the composition of [__neg__]
    and [__add__], and on live points of one curve the difference compares
    equal to the sum of [P] and the opposite of [Q] computed afterwards. *)
Theorem sub_is_add_neg (P Q : Point) (s : state) (a b : affine) :
  curve Q = curve P ->
  denotes s (ec_group (curve P)) (ec_point P) a ->
  denotes s (ec_group (curve P)) (ec_point Q) b ->
  __sub__ P Q s = (N ← __neg__ Q; __add__ P N) s
  /\ exists D s1 N s2 S s3,
       __sub__ P Q s = Returns D s1
       /\ __neg__ Q s1 = Returns N s2
       /\ __add__ P N s2 = Returns S s3
       /\ __eq__ D S s3 = Returns true s3.
Proof.
  intros HC Ha Hb. split; [reflexivity|].
  set (G := ec_group (curve P)) in *.
  assert (forall s0, preserved s s0 -> exists N s1 S s2,
            __neg__ Q s0 = Returns N s1 /\ __add__ P N s1 = Returns S s2
            /\ curve S = curve P
            /\ denotes s2 G (ec_point S) (ec_add G a (ec_neg G b))
            /\ preserved s0 s2) as Hrun.
  { intros s0 Hp.
    pose proof (denotes_preserved _ _ _ _ _ Hp Ha) as Ha0.
    pose proof (denotes_preserved _ _ _ _ _ Hp Hb) as Hb0.
    destruct (__neg___spec Q s0 b) as (N & s1 & Hneg & HN & HdN & Hal1);
      [rewrite HC; exact Hb0|]. rewrite HC in HdN. fold G in HdN.
    apply allocated_preserved in Hal1.
    pose proof (denotes_preserved _ _ _ _ _ Hal1 Ha0) as Ha1.
    destruct (__add___spec P N s1 _ _ Ha1 HdN) as (S & s2 & Hadd & HS & HdS & Hal2).
    apply allocated_preserved in Hal2.
    exists N, s1, S, s2.
    split; [done|split; [done|split; [done|split; [done|]]]].
    eapply preserved_trans; [exact Hal1|exact Hal2]. }
  destruct (Hrun s (preserved_refl s)) as (N0 & s0 & D & s1 & Hneg0 & Hadd0 & HD & HdD & Hp1).
  destruct (Hrun s1 Hp1) as (N & s2 & S & s3 & Hneg & Hadd & HS & HdS & Hp3).
  exists D, s1, N, s2, S, s3. split; [|split; [done|split; [done|]]].
  - unfold __sub__. rewrite (bind_Returns _ _ _ _ _ Hneg0). exact Hadd0.
  - pose proof (denotes_preserved _ _ _ _ _ Hp3 HdD) as HdD3.
    rewrite (__eq___spec D S s3 (ec_add G a (ec_neg G b)) (ec_add G a (ec_neg G b))).
    + by rewrite bool_decide_eq_true_2.
    + rewrite HD. exact HdD3.
    + rewrite HD. exact HdS.
Qed.

Lemma sub_is_add_neg_witness :
  __sub__ toy_generator toy_generator toy_state
  = (N ← __neg__ toy_generator; __add__ toy_generator N) toy_state
  /\ exists D s1 N s2 S s3,
       __sub__ toy_generator toy_generator toy_state = Returns D s1
       /\ __neg__ toy_generator s1 = Returns N s2
       /\ __add__ toy_generator N s2 = Returns S s3
       /\ __eq__ D S s3 = Returns true s3.
Proof.
  exact (sub_is_add_neg toy_generator toy_generator toy_state _ _ eq_refl
           toy_generator_denotes toy_generator_denotes).
Defined.

(** C6. [__neg__] returns a new Point on a handle that was not in use, and
    so is not [self]'s; the object behind [self]'s handle, like every
    object that existed before the call, is what it was; the new handle
    holds the opposite of [self]'s group element. *)
Theorem neg_fresh (P : Point) (s : state) (pt : EC_POINT) :
  deref (ec_group (curve P)) (ec_point P) s = Some pt ->
  exists Q s',
    __neg__ P s = Returns Q s'
    /\ ec_point Q <> ec_point P
    /\ heap s !! ec_point Q = None
    /\ heap s' !! ec_point P = heap s !! ec_point P
    /\ heap s' !! ec_point P = Some pt
    /\ (forall h, h <> ec_point Q -> heap s' !! h = heap s !! h)
    /\ curve Q = curve P
    /\ denotes s' (ec_group (curve P)) (ec_point Q)
         (ec_neg (ec_group (curve P)) (pt_coords pt)).
Proof.
  intros Hd.
  destruct (__neg___spec P s (pt_coords pt)) as (Q & s' & Hneg & HQ & HdQ & Hal);
    [by exists pt|].
  destruct (deref_compat _ _ _ _ Hd) as [Hl _].
  destruct Hal as (Hfresh & Hother & _).
  assert (ec_point Q <> ec_point P) as Hne by (intros E; rewrite E in Hfresh; congruence).
  exists Q, s'.
  split; [done|split; [done|split; [done|split; [|split; [|split; [|split]]]]]].
  - apply Hother. done.
  - rewrite Hother by done. exact Hl.
  - intros h Hh. apply Hother, Hh.
  - done.
  - done.
Qed.

Lemma neg_fresh_witness :
  exists Q s',
    __neg__ toy_generator toy_state = Returns Q s'
    /\ ec_point Q <> ec_point toy_generator
    /\ heap toy_state !! ec_point Q = None
    /\ heap s' !! ec_point toy_generator = heap toy_state !! ec_point toy_generator
    /\ heap s' !! ec_point toy_generator
       = Some {| pt_curve_name := 9001; pt_coords := Some (0, 4) |}
    /\ (forall h, h <> ec_point Q -> heap s' !! h = heap toy_state !! h)
    /\ curve Q = curve toy_generator
    /\ denotes s' (ec_group (curve toy_generator)) (ec_point Q)
         (ec_neg (ec_group (curve toy_generator)) (Some (0, 4))).
Proof.
  exact (neg_fresh toy_generator toy_state
           {| pt_curve_name := 9001; pt_coords := Some (0, 4) |} eq_refl).
Defined.

(** ** The generator *)

(** C7. Two calls of [get_generator_from_curve] for one curve return
    Points that compare equal, with the curve given or left to the
    configured default. *)
Theorem generator_stable (C : Curve) (s : state) (g : affine) :
  denotes s (ec_group C) (generator C) g ->
  (exists G1 G2,
      get_generator_from_curve (Some C) s = Returns G1 s
      /\ get_generator_from_curve (Some C) s = Returns G2 s
      /\ __eq__ G1 G2 s = Returns true s)
  /\ (config_curve s = Some C ->
      exists G1 G2,
        get_generator_from_curve None s = Returns G1 s
        /\ get_generator_from_curve None s = Returns G2 s
        /\ __eq__ G1 G2 s = Returns true s).
Proof.
  intros Hg.
  assert (__eq__ (Build_Point (generator C) C) (Build_Point (generator C) C) s
          = Returns true s) as Heq.
  { rewrite (__eq___spec _ _ s g g) by exact Hg. by rewrite bool_decide_eq_true_2. }
  split.
  - by exists (Build_Point (generator C) C), (Build_Point (generator C) C).
  - intros Hcfg. exists (Build_Point (generator C) C), (Build_Point (generator C) C).
    unfold get_generator_from_curve, default_curve. run_bind. rewrite Hcfg. done.
Qed.

Lemma generator_stable_witness :
  (exists G1 G2,
      get_generator_from_curve (Some toy_curve) toy_state = Returns G1 toy_state
      /\ get_generator_from_curve (Some toy_curve) toy_state = Returns G2 toy_state
      /\ __eq__ G1 G2 toy_state = Returns true toy_state)
  /\ (config_curve toy_state = Some toy_curve ->
      exists G1 G2,
        get_generator_from_curve None toy_state = Returns G1 toy_state
        /\ get_generator_from_curve None toy_state = Returns G2 toy_state
        /\ __eq__ G1 G2 toy_state = Returns true toy_state).
Proof.
  exact (generator_stable toy_curve toy_state (Some (0, 4)) toy_generator_denotes).
Defined.

(** ** The optional curve argument *)

Lemma config_independent_ret {A} (a : A) : config_independent (mret a).
Proof. intros cfg s. reflexivity. Qed.

Lemma config_independent_raise {A} e : config_independent (@raise A e).
Proof. intros cfg s. reflexivity. Qed.

Lemma config_independent_bind {A B} (m : M A) (f : A -> M B) :
  config_independent m -> (forall a, config_independent (f a)) ->
  config_independent (m ≫= f).
Proof.
  intros Hm Hf cfg s. unfold mbind, M_bind. rewrite Hm.
  destruct (m s) as [a s'|e]; [apply Hf|reflexivity].
Qed.

Lemma config_independent_assert b : config_independent (openssl_assert b).
Proof. destruct b; [apply config_independent_ret|apply config_independent_raise]. Qed.

Lemma deref_set_config G h cfg s : deref G h (set_config cfg s) = deref G h s.
Proof. reflexivity. Qed.

Lemma config_independent_new C : config_independent (_get_new_EC_POINT C).
Proof. intros cfg s. reflexivity. Qed.

Lemma config_independent_mul G r n q m :
  config_independent (EC_POINT_mul G r n q m).
Proof.
  intros cfg s. unfold EC_POINT_mul. rewrite !deref_set_config.
  destruct (deref G r s), (deref G q s); reflexivity.
Qed.

Lemma config_independent_oct2point G h buf len :
  config_independent (EC_POINT_oct2point G h buf len).
Proof.
  intros cfg s. unfold EC_POINT_oct2point. rewrite !deref_set_config.
  destruct (deref G h s); [|reflexivity].
  destruct (ec_oct2point G buf len); reflexivity.
Qed.

Lemma config_independent_set_affine G h x y :
  config_independent (point_from_affine G h x y).
Proof.
  intros cfg s. unfold point_from_affine.
  rewrite !deref_set_config. destruct (deref G h s); reflexivity.
Qed.

Lemma config_independent_rand C : config_independent (CurveBN_gen_rand C).
Proof. intros cfg s. reflexivity. Qed.

Ltac config_indep :=
  repeat first
    [ apply config_independent_ret
    | apply config_independent_new
    | apply config_independent_rand
    | apply config_independent_mul
    | apply config_independent_oct2point
    | apply config_independent_set_affine
    | apply config_independent_assert
    | apply config_independent_bind; [|intros ?] ].

Lemma falls_back_resolved {A} (f : Curve -> M A) :
  falls_back (fun curve =>
                curve ← match curve with Some c => mret c | None => default_curve end;
                f curve).
Proof.
  intros s. unfold default_curve. run_bind.
  destruct (config_curve s); reflexivity.
Qed.

(** C8. Each operation with an optional curve argument runs on the curve
    it is given, whatever the configured default, and only without an
    argument on the default curve of the configuration. *)
Theorem optional_curve_resolution :
  (forall c, resolves_curve (fun curve => expected_bytes_length curve c))
  /\ resolves_curve gen_rand
  /\ (forall coords, resolves_curve (from_affine coords))
  /\ (forall data, resolves_curve (from_bytes data))
  /\ resolves_curve get_generator_from_curve.
Proof.
  split; [|split; [|split; [|split]]].
  - intros c. split; [apply falls_back_resolved|].
    intros C cfg s. destruct c; reflexivity.
  - split; [apply falls_back_resolved|]. intros C. unfold gen_rand.
    config_indep.
  - intros [x y]. split; [apply (falls_back_resolved (fun curve => _))|].
    intros C. unfold from_affine, _get_EC_POINT_via_affine.
    config_indep.
  - intros data. split; [apply falls_back_resolved|]. intros C. unfold from_bytes.
    config_indep.
  - split; [apply falls_back_resolved|]. intros C cfg s. reflexivity.
Qed.

(** ** The group law *)



(** ** The curve of a result *)

(** The operands of [__add__] and [__sub__] may carry different curves:
    nothing compares them, and the result carries [self]'s. *)
Example sub_mismatched_curves :
  exists R s',
    __sub__ toy_generator {| ec_point := 1%positive; curve := toy_curve_wide |} toy_state
    = Returns R s'
    /\ curve R = toy_curve.
Proof. eexists _, _. split; reflexivity. Qed.

(** Each of the eight operations does return on the small curves, with the
    curve given or, in [tiny_state], with the configured default. *)
Example result_curve_runs :
  (exists P s', gen_rand (Some toy_curve) toy_state = Returns P s'
                /\ curve P = toy_curve)
  /\ (exists P s', gen_rand None tiny_state = Returns P s' /\ curve P = tiny_curve)
  /\ (exists P s', from_affine (0, 4) (Some toy_curve) toy_state = Returns P s'
                   /\ curve P = toy_curve)
  /\ (exists P s', from_bytes [x00] None tiny_state = Returns P s'
                   /\ curve P = tiny_curve)
  /\ (exists P s', get_generator_from_curve None tiny_state = Returns P s'
                   /\ curve P = tiny_curve)
  /\ (exists P s',
        __mul__ toy_generator {| bignum := 3; bn_curve := toy_curve_wide |} toy_state
        = Returns P s' /\ curve P = toy_curve)
  /\ (exists P s',
        __add__ toy_generator {| ec_point := 1%positive; curve := toy_curve_wide |}
          toy_state = Returns P s' /\ curve P = toy_curve)
  /\ (exists P s', __neg__ toy_generator toy_state = Returns P s'
                   /\ curve P = toy_curve).
Proof.
  repeat match goal with |- _ /\ _ => split end;
    eexists _, _; (split; [vm_compute; reflexivity|]); reflexivity.
Qed.

(** C10. The Point that [gen_rand], [from_affine], [from_bytes] or
    [get_generator_from_curve] returns carries the curve the call resolved,
    the one given or else the default; the Point that [__mul__], [__add__],
    [__sub__] or [__neg__] returns carries the curve of [self]; and the
    curve carried by the other operand of [__add__] and [__mul__] is never
    looked at. *)
Theorem result_curve :
  (forall cv s P s', gen_rand cv s = Returns P s' ->
                        resolved cv s = Some (curve P))
  /\ (forall coords cv s P s', from_affine coords cv s = Returns P s' ->
                                  resolved cv s = Some (curve P))
  /\ (forall data cv s P s', from_bytes data cv s = Returns P s' ->
                                resolved cv s = Some (curve P))
  /\ (forall cv s P s', get_generator_from_curve cv s = Returns P s' ->
                           resolved cv s = Some (curve P))
  /\ (forall self other s P s', __mul__ self other s = Returns P s' ->
                                curve P = curve self)
  /\ (forall self other s P s', __add__ self other s = Returns P s' ->
                                curve P = curve self)
  /\ (forall self other s P s', __sub__ self other s = Returns P s' ->
                                curve P = curve self)
  /\ (forall self s P s', __neg__ self s = Returns P s' -> curve P = curve self)
  /\ (forall self other C s,
        __add__ self {| ec_point := ec_point other; curve := C |} s
        = __add__ self other s)
  /\ (forall self other C s,
        __mul__ self {| bignum := bignum other; bn_curve := C |} s
        = __mul__ self other s).
Proof.
  assert (forall self other s P s', __add__ self other s = Returns P s' ->
                                    curve P = curve self) as Hadd.
  { intros self other s P s' H. unfold __add__ in H. invert_run H.
    injection H as <- _. reflexivity. }
  repeat match goal with |- _ /\ _ => split end.
  - intros curve s P s' H. unfold gen_rand in H. invert_run H.
    apply resolve_inv in R as [-> _]. injection H as <- _. reflexivity.
  - intros [x y] curve s P s' H. unfold from_affine in H. invert_run H.
    apply resolve_inv in R as [-> _]. injection H as <- _. reflexivity.
  - intros data curve s P s' H. unfold from_bytes in H. invert_run H.
    apply resolve_inv in R as [-> _]. injection H as <- _. reflexivity.
  - intros curve s P s' H. unfold get_generator_from_curve in H. invert_run H.
    apply resolve_inv in R as [-> _]. injection H as <- _. reflexivity.
  - intros self other s P s' H. unfold __mul__ in H. invert_run H.
    injection H as <- _. reflexivity.
  - exact Hadd.
  - intros self other s P s' H. unfold __sub__ in H.
    apply bind_inv in H as (N & s1 & _ & H). apply Hadd in H. exact H.
  - intros self s P s' H. unfold __neg__ in H.
    apply bind_inv in H as ([inv|] & s1 & _ & H); [|done].
    invert_run H. injection H as <- _. reflexivity.
  - reflexivity.
  - reflexivity.
Qed.

(** * Further properties *)

(** ** The group of the curve: opposite and neutral element *)

Section group_laws.
Variable G : EC_GROUP.
Hypothesis prime_field : Z.prime (field G).
Hypothesis odd_field : 2 < field G.

Let p := field G.

Lemma ec_add_None_r a : ec_add G a None = a.
Proof. destruct a as [[x y]|]; reflexivity. Qed.

Lemma ec_neg_involutive a : is_reduced G a = true -> ec_neg G (ec_neg G a) = a.
Proof.
  destruct a as [[x y]|]; [|done]. intros [Hx Hy]%is_reduced_range.
  cbn [ec_neg]. fold p. do 2 f_equal.
  apply (cong_small p); [apply Z.mod_pos_bound; lia|lia|].
  rewrite !cong_mod. apply cong_divide. exists 0. ring.
Qed.

(** A point and its opposite add up to the point at infinity. *)
Lemma ec_add_neg_r a : is_reduced G a = true -> ec_add G a (ec_neg G a) = None.
Proof.
  destruct a as [[x y]|]; [|done]. intros [Hx Hy]%is_reduced_range.
  unfold ec_neg, ec_add. fold p. rewrite Z.sub_diag, Zmod_0_l. cbn [Z.eqb].
  destruct (((- y) mod p - y) mod p =? 0) eqn:E; [|done].
  unfold ec_dbl. fold p.
  apply cong_zero_eqb in E. rewrite cong_mod in E.
  assert (cong p (2 * y) 0) as H.
  { transitivity (- (- y - y)); [apply cong_divide; exists 0; ring|].
    rewrite E. reflexivity. }
  apply cong_prime_mul in H as [H|H]; [|apply cong_eq in H|done].
  - destruct (two_not_zero G odd_field H).
  - rewrite H, Zmod_0_l. reflexivity.
Qed.
End group_laws.

(** ** Scalar multiples, given the associativity of the addition *)

Section scalar_multiples.
Variable G : EC_GROUP.
Hypothesis prime_field : Z.prime (field G).
Hypothesis odd_field : 2 < field G.
Hypothesis assoc : ec_add_assoc G.

Lemma iter_op_succ_valid k : forall g,
  valid_point G g = true ->
  Pos.iter_op (ec_add G) (Pos.succ k) g = ec_add G g (Pos.iter_op (ec_add G) k g).
Proof.
  induction k as [k IH|k IH|]; intros g Hg; [|reflexivity..].
  assert (valid_point G (ec_add G g g) = true) as Hgg by (apply valid_point_add; done).
  change (Pos.iter_op (ec_add G) (Pos.succ k) (ec_add G g g)
          = ec_add G g (ec_add G g (Pos.iter_op (ec_add G) k (ec_add G g g)))).
  rewrite IH by done. apply assoc; [done..|]. apply valid_point_iter; done.
Qed.

Lemma iter_op_add_valid k l g :
  valid_point G g = true ->
  Pos.iter_op (ec_add G) (k + l) g
  = ec_add G (Pos.iter_op (ec_add G) k g) (Pos.iter_op (ec_add G) l g).
Proof.
  intros Hg. induction k as [|k IH] using Pos.peano_ind.
  - rewrite Pos.add_1_l. apply iter_op_succ_valid, Hg.
  - rewrite Pos.add_succ_l, !iter_op_succ_valid, IH by done.
    symmetry. apply assoc; [done|apply valid_point_iter; done..].
Qed.

Lemma ec_mul_add_nonneg a b g :
  valid_point G g = true -> 0 <= a -> 0 <= b ->
  ec_mul G (a + b) g = ec_add G (ec_mul G a g) (ec_mul G b g).
Proof.
  intros Hg Ha Hb. destruct a as [|k|k]; [reflexivity| |lia].
  destruct b as [|l|l]; [|apply iter_op_add_valid, Hg|lia].
  rewrite Z.add_0_r. cbn [ec_mul]. symmetry. apply ec_add_None_r.
Qed.

Lemma ec_mul_multiple n g :
  valid_point G g = true -> 0 <= n -> ec_mul G n g = None ->
  forall q, 0 <= q -> ec_mul G (n * q) g = None.
Proof.
  intros Hg Hn Hn0. apply natlike_ind.
  - rewrite Z.mul_0_r. reflexivity.
  - intros q Hq IH. replace (n * Z.succ q) with (n * q + n) by lia.
    rewrite ec_mul_add_nonneg, IH, Hn0 by (done || nia). reflexivity.
Qed.

(** A scalar counts modulo any order of the point. *)
Lemma ec_mul_mod n a g :
  valid_point G g = true -> 0 < n -> ec_mul G n g = None -> 0 <= a ->
  ec_mul G (a mod n) g = ec_mul G a g.
Proof.
  intros Hg Hn Hn0 Ha.
  pose proof (Z.mod_pos_bound a n Hn) as Hr.
  assert (0 <= a / n) as Hq by (apply Z.div_pos; lia).
  rewrite (Z.div_mod a n) at 2 by lia.
  rewrite ec_mul_add_nonneg by (done || nia).
  rewrite (ec_mul_multiple n g) by (done || lia). reflexivity.
Qed.
End scalar_multiples.

(** ** Octet strings: what the decoder accepts *)

Lemma BN_bn2binpad_bin2bn X : BN_bn2binpad (BN_bin2bn X) (length X) = X.
Proof.
  induction X as [|b X IH] using rev_ind; [reflexivity|].
  rewrite length_app, Nat.add_1_r. cbn [length BN_bn2binpad].
  rewrite BN_bin2bn_snoc. pose proof (byte_to_Z_range b) as Hb.
  replace ((BN_bin2bn X * 256 + byte_to_Z b) / 256) with (BN_bin2bn X).
  2:{ rewrite Z.div_add_l by lia. rewrite Z.div_small by lia. lia. }
  rewrite IH. do 2 f_equal.
  transitivity (byte_of_Z (byte_to_Z b)); [|apply byte_of_to_Z].
  unfold byte_of_Z. rewrite Z.add_comm, Z.mod_add by lia. reflexivity.
Qed.

Section sec1_accepted.
Variable G : EC_GROUP.
Hypothesis prime_field : Z.prime (field G).
Hypothesis odd_field : 2 < field G.

Let k := BN_num_bytes (field G).

(** Decompression gives a point of the curve over the abscissa, with an
    ordinate of the parity asked for. *)
Lemma ec_set_compressed_coordinates_sound x b g :
  0 <= x < field G ->
  ec_set_compressed_coordinates G x b = Some g ->
  exists y, g = Some (x, y) /\ valid_point G g = true /\ BN_is_odd y = b.
Proof.
  intros Hx. unfold ec_set_compressed_coordinates. rewrite (Z.mod_small x) by lia.
  destruct (BN_mod_sqrt _ _) as [r|] eqn:E; [|done].
  apply BN_mod_sqrt_root in E as [Hr Hc]. rewrite cong_mod in Hc.
  pose proof (field_odd G prime_field odd_field) as Hodd.
  unfold BN_is_odd.
  destruct (Bool.eqb b (Z.odd r)) eqn:Hb; cbn [negb].
  - intros [= <-]. exists r. apply Bool.eqb_prop in Hb.
    split; [done|]. split; [|done].
    unfold valid_point. apply andb_true_iff.
    split; [apply is_reduced_range; lia|apply is_on_curve_cong; done].
  - destruct (Z.eqb_spec r 0); [done|]. intros [= <-].
    exists (field G - r). split; [done|]. split.
    + unfold valid_point. apply andb_true_iff.
      split; [apply is_reduced_range; lia|]. apply is_on_curve_cong.
      rewrite <- Hc. apply cong_divide. exists (field G - 2 * r). ring.
    + rewrite Z.odd_sub, Hodd. destruct b, (Z.odd r); done.
Qed.

(** What the decoder accepts, by the first byte: the single byte 00, for
    the point at infinity; 02 or 03 and an abscissa, for the point of the
    curve over it whose ordinate has the parity of the first byte; 04, 06
    or 07 and the coordinates of a point of the curve. *)
Lemma decode_by_prefix_inv v rest g :
  decode_by_prefix G v rest = Some g ->
  (v = 0 /\ rest = [] /\ g = None)
  \/ ((v = 2 \/ v = 3) /\ length rest = k
      /\ exists y, g = Some (BN_bin2bn rest, y)
                   /\ valid_point G g = true /\ BN_is_odd y = (v =? 3))
  \/ ((v = 4 \/ v = 6 \/ v = 7) /\ length rest = (2 * k)%nat
      /\ g = Some (BN_bin2bn (take k rest), BN_bin2bn (drop k rest))
      /\ valid_point G g = true).
Proof.
  unfold decode_by_prefix. cbv zeta. fold k.
  destruct (Z.eqb_spec v 0) as [->|Hv0].
  { destruct (Nat.eqb_spec (S (length rest)) 1) as [Hl|]; [|done].
    intros [= <-]. left. destruct rest; [done|cbn in Hl; lia]. }
  destruct ((v =? 2) || (v =? 3)) eqn:E23.
  { destruct (Nat.eqb_spec (S (length rest)) (1 + k)) as [Hl|]; cbn [negb]; [|done].
    rewrite take_ge by lia.
    destruct (Z.leb_spec (field G) (BN_bin2bn rest)); [done|].
    intros Hdec.
    apply ec_set_compressed_coordinates_sound in Hdec as (y & -> & Hv & Hodd);
      [|split; [apply BN_bin2bn_nonneg|done]].
    right; left. split; [lia|]. split; [lia|]. by exists y. }
  destruct ((v =? 4) || (v =? 6) || (v =? 7)) eqn:E467; [|done].
  destruct (Nat.eqb_spec (S (length rest)) (1 + 2 * k)) as [Hl|]; cbn [negb]; [|done].
  rewrite (take_ge (drop k rest)) by (rewrite length_drop; lia).
  pose proof (BN_bin2bn_nonneg (take k rest)).
  pose proof (BN_bin2bn_nonneg (drop k rest)).
  destruct (Z.leb_spec (field G) (BN_bin2bn (take k rest))); [done|].
  destruct (Z.leb_spec (field G) (BN_bin2bn (drop k rest))); [done|].
  destruct (negb (v =? 4) && _); [done|].
  destruct (is_on_curve G _) eqn:Hc; [|done]. intros [= <-].
  right; right. split; [lia|]. split; [lia|]. split; [done|].
  unfold valid_point. apply andb_true_iff. split; [|done].
  apply is_reduced_range. lia.
Qed.
End sec1_accepted.

(** ** Handles and states, continued *)

Lemma preserved_overwritten s s' h v1 v2 :
  heap s !! h = None -> heap s' = <[h := v2]> (<[h := v1]> (heap s)) ->
  config_curve s' = config_curve s -> entropy s' = entropy s -> preserved s s'.
Proof.
  intros Hh Hs Hc He. split; [|done]. intros h' pt Hl. rewrite Hs.
  rewrite !lookup_insert_ne by congruence. done.
Qed.

Lemma preserved_unused s s' h :
  preserved s s' -> heap s' !! h = None -> heap s !! h = None.
Proof.
  intros [Hp _] Hh. destruct (heap s !! h) as [pt|] eqn:E; [|done].
  apply Hp in E. congruence.
Qed.

(** ** What each method does, continued *)

Lemma from_bytes_inv data C s P s' :
  from_bytes data (Some C) s = Returns P s' ->
  exists g, ec_oct2point (ec_group C) data (length data) = Some g
            /\ curve P = C
            /\ denotes s' (ec_group C) (ec_point P) g
            /\ allocated s s' (ec_point P).
Proof.
  intros H. destruct (ec_oct2point (ec_group C) data (length data)) as [g|] eqn:E.
  - destruct (from_bytes_decoded data C s g E) as (R & s1 & Hr & HC & Hd & Hal).
    rewrite Hr in H. injection H as <- <-. by exists g.
  - rewrite from_bytes_rejected in H by done. done.
Qed.

Lemma to_affine_finite (P : Point) s x y :
  denotes s (ec_group (curve P)) (ec_point P) (Some (x, y)) ->
  to_affine P s = Returns (x, y) s.
Proof.
  intros (pt & Hd & Hg).
  unfold to_affine, _get_affine_coords_via_EC_POINT,
    EC_POINT_get_affine_coordinates_GFp. run_bind. rewrite Hd, Hg. reflexivity.
Qed.

Lemma to_affine_infinity (P : Point) s :
  denotes s (ec_group (curve P)) (ec_point P) None ->
  to_affine P s = Raises InternalError.
Proof.
  intros (pt & Hd & Hg).
  unfold to_affine, _get_affine_coords_via_EC_POINT,
    EC_POINT_get_affine_coordinates_GFp. run_bind. rewrite Hd, Hg. reflexivity.
Qed.

Lemma from_affine_spec (x y : Z) (C : Curve) s :
  let G := ec_group C in
  exists R s',
    from_affine (x, y) (Some C) s = Returns R s'
    /\ curve R = C
    /\ denotes s' G (ec_point R) (Some (x mod field G, y mod field G))
    /\ allocated s s' (ec_point R).
Proof.
  intros G.
  set (h := fresh (dom (heap s))).
  set (pr := {| pt_curve_name := curve_name G; pt_coords := None |}).
  exists (Build_Point h C),
    (store h pr (Some (x mod field G, y mod field G)) (alloc G s)).
  split; [|split; [done|split]].
  - unfold from_affine, _get_EC_POINT_via_affine. run_bind.
    rewrite _get_new_EC_POINT_eq. unfold point_from_affine, _int_to_bn. fold G.
    rewrite deref_alloc_new. reflexivity.
  - eexists. split; [apply deref_store_eq, compat_new|reflexivity].
  - apply allocated_alloc_store.
Qed.

Lemma to_bytes_same C (P Q : Point) (c : bool) s g :
  field_order_size_in_bytes C = BN_num_bytes (field (ec_group C)) ->
  holds C P s g -> holds C Q s g -> to_bytes P c s = to_bytes Q c s.
Proof.
  intros Hs (HP & Hp & Hv) (HQ & Hq & _).
  apply andb_true_iff in Hv as [Hr _]. subst C.
  destruct g as [[x y]|].
  - rewrite (to_bytes_finite P c s x y), (to_bytes_finite Q c s x y);
      rewrite ?HQ; done.
  - rewrite (to_bytes_infinity P c s), (to_bytes_infinity Q c s); rewrite ?HQ; done.
Qed.

(** The octet string of a Point of the curve decodes to its group
    element. *)
Lemma to_bytes_decodes C (P : Point) (c : bool) s g :
  Curve_ok C -> holds C P s g ->
  exists bs, to_bytes P c s = Returns bs s
             /\ ec_oct2point (ec_group C) bs (length bs) = Some g.
Proof.
  intros [Hp Ho Hs] (<- & Hg & Hv). set (G := ec_group (curve P)) in *.
  destruct g as [[x y]|].
  - exists (sec1_octets G x y (conversion_form c)). split.
    + apply to_bytes_finite; [done..|].
      unfold valid_point in Hv. apply andb_true_iff in Hv as [Hr _]. exact Hr.
    + rewrite length_sec1_octets by apply is_form_conversion_form.
      apply ec_oct2point_sec1_octets; [done..|apply is_form_conversion_form].
  - exists [x00]. split; [apply to_bytes_infinity; done|reflexivity].
Qed.

(** ** Results on new handles *)

Ltac fresh_store :=
  split; [apply fresh_heap
         |eapply preserved_overwritten; [apply fresh_heap|reflexivity..]].

Lemma fresh_result_add self other s : fresh_result s (__add__ self other s).
Proof.
  unfold __add__. run_bind. rewrite _get_new_EC_POINT_eq. unfold EC_POINT_add.
  repeat match goal with
         | |- context [match deref ?g ?h ?s with _ => _ end] => destruct (deref g h s)
         end; cbn; try exact I.
  fresh_store.
Qed.

Lemma fresh_result_mul self n s : fresh_result s (__mul__ self n s).
Proof.
  unfold __mul__. run_bind. rewrite _get_new_EC_POINT_eq. unfold EC_POINT_mul.
  repeat match goal with
         | |- context [match deref ?g ?h ?s with _ => _ end] => destruct (deref g h s)
         end; cbn; try exact I.
  fresh_store.
Qed.

Lemma fresh_result_neg self s : fresh_result s (__neg__ self s).
Proof.
  unfold __neg__, EC_POINT_dup. run_bind.
  destruct (deref _ _ s) as [pa|]; [|exact I]. unfold EC_POINT_invert.
  destruct (deref _ _ _) as [pb|]; cbn; [|exact I].
  fresh_store.
Qed.

Lemma fresh_result_sub self other s : fresh_result s (__sub__ self other s).
Proof.
  unfold __sub__. unfold mbind at 1, M_bind at 1.
  pose proof (fresh_result_neg other s) as Hn.
  destruct (__neg__ other s) as [N s1|e]; [|exact I]. destruct Hn as [_ Hp1].
  pose proof (fresh_result_add self N s1) as Ha.
  destruct (__add__ self N s1) as [R s2|e]; [|exact I]. destruct Ha as [Hf Hp2].
  split; [eapply preserved_unused; eassumption|eapply preserved_trans; eassumption].
Qed.

Lemma fresh_result_from_bytes data C s : fresh_result s (from_bytes data (Some C) s).
Proof.
  unfold from_bytes. run_bind. rewrite _get_new_EC_POINT_eq.
  unfold EC_POINT_oct2point.
  destruct (deref _ _ _) as [pt|]; [|exact I].
  destruct (ec_oct2point _ _ _); cbn; [|exact I].
  fresh_store.
Qed.

Lemma fresh_result_from_affine coords C s :
  fresh_result s (from_affine coords (Some C) s).
Proof.
  destruct coords as [x y].
  destruct (from_affine_spec x y C s) as (R & s' & -> & _ & _ & Hal).
  split; [apply Hal|eapply allocated_preserved, Hal].
Qed.

Lemma fresh_result_gen_rand C s : fresh_result s (gen_rand (Some C) s).
Proof.
  unfold gen_rand. run_bind. rewrite _get_new_EC_POINT_eq.
  unfold CurveBN_gen_rand, EC_POINT_mul.
  repeat match goal with
         | |- context [match deref ?g ?h ?s with _ => _ end] => destruct (deref g h s)
         end; cbn; try exact I.
  fresh_store.
Qed.

Lemma fresh_result_resolved (op : option Curve -> M Point) cv s :
  falls_back op -> (forall C, fresh_result s (op (Some C) s)) ->
  fresh_result s (op cv s).
Proof.
  intros Hfb H. destruct cv as [C|]; [apply H|]. rewrite Hfb.
  unfold default_curve. run_bind. destruct (config_curve s) as [C|]; [apply H|exact I].
Qed.

(** ** Points of the curve through the operators *)

Lemma neg_holds C P s a :
  Curve_ok C -> holds C P s a ->
  exists R s',
    __neg__ P s = Returns R s'
    /\ holds C R s' (ec_neg (ec_group C) a)
    /\ preserved s s'.
Proof.
  intros [Hp Ho _] (<- & Ha & Hva).
  destruct (__neg___spec P s a Ha) as (R & s' & Hneg & HR & HdR & Hal).
  exists R, s'. split; [done|]. split; [|eapply allocated_preserved, Hal].
  split; [done|split; [done|]]. apply valid_point_neg; assumption.
Qed.

Lemma mul_holds C P n s a :
  Curve_ok C -> holds C P s a ->
  exists R s',
    __mul__ P n s = Returns R s'
    /\ holds C R s' (ec_mul (ec_group C) (bignum n) a)
    /\ preserved s s'.
Proof.
  intros [Hp Ho _] (<- & Ha & Hva).
  destruct (__mul___spec P n s a Ha) as (R & s' & Hmul & HR & HdR & Hal).
  exists R, s'. split; [done|]. split; [|eapply allocated_preserved, Hal].
  split; [done|split; [done|]]. apply valid_point_mul; assumption.
Qed.

Lemma sub_holds C P Q s a b :
  Curve_ok C -> holds C P s a -> holds C Q s b ->
  exists R s',
    __sub__ P Q s = Returns R s'
    /\ holds C R s' (ec_add (ec_group C) a (ec_neg (ec_group C) b))
    /\ preserved s s'.
Proof.
  intros Hok HP HQ.
  destruct (neg_holds C Q s b Hok HQ) as (N & s1 & Hneg & HN & Hp1).
  destruct (add_holds C P N s1 a _ Hok (holds_preserved _ _ _ _ _ Hp1 HP) HN)
    as (R & s2 & Hadd & HR & Hp2).
  exists R, s2. split; [|split; [done|eapply preserved_trans; eassumption]].
  unfold __sub__. rewrite (bind_Returns _ _ _ _ _ Hneg). exact Hadd.
Qed.

Lemma point_ok_holds C P s : point_ok C P s <-> exists g, holds C P s g.
Proof.
  split.
  - intros (HC & g & Hg & Hv). by exists g.
  - intros (g & HC & Hg & Hv). split; [done|]. by exists g.
Qed.

Lemma eq_holds_true C P Q s a :
  holds C P s a -> holds C Q s a -> __eq__ P Q s = Returns true s.
Proof.
  intros HP HQ. rewrite (eq_holds C P Q s a a HP HQ).
  by rewrite bool_decide_eq_true_2.
Qed.

(** ** Equality *)

(** X1. On Points of one curve [__eq__] is an equivalence: a Point equals
    itself, [P == Q] and [Q == P] return the same, and [P == R] is true
    when [P == Q] and [Q == R] are. *)
Theorem eq_equivalence (C : Curve) (P Q R : Point) (s : state) :
  point_ok C P s -> point_ok C Q s -> point_ok C R s ->
  __eq__ P P s = Returns true s
  /\ (exists b, __eq__ P Q s = Returns b s /\ __eq__ Q P s = Returns b s)
  /\ (__eq__ P Q s = Returns true s -> __eq__ Q R s = Returns true s ->
      __eq__ P R s = Returns true s).
Proof.
  intros (a & Ha)%point_ok_holds (b & Hb)%point_ok_holds (c & Hc)%point_ok_holds.
  split; [by apply (eq_holds_true C P P s a)|]. split.
  - exists (bool_decide (a = b)). split; [by apply (eq_holds C)|].
    rewrite (eq_holds C Q P s b a Hb Ha). f_equal.
    apply bool_decide_ext. split; congruence.
  - rewrite (eq_holds C P Q s a b Ha Hb), (eq_holds C Q R s b c Hb Hc).
    intros [= Hab%bool_decide_eq_true] [= Hbc%bool_decide_eq_true]. subst.
    by apply (eq_holds_true C P R s c).
Qed.

Lemma eq_equivalence_witness :
  let P := {| ec_point := 1%positive; curve := tiny_curve |} in
  let Q := {| ec_point := 2%positive; curve := tiny_curve |} in
  let R := {| ec_point := 3%positive; curve := tiny_curve |} in
  __eq__ P P tiny_state = Returns true tiny_state
  /\ (exists b, __eq__ P Q tiny_state = Returns b tiny_state
                /\ __eq__ Q P tiny_state = Returns b tiny_state)
  /\ (__eq__ P Q tiny_state = Returns true tiny_state ->
      __eq__ Q R tiny_state = Returns true tiny_state ->
      __eq__ P R tiny_state = Returns true tiny_state).
Proof.
  exact (eq_equivalence tiny_curve _ _ _ tiny_state
           (tiny_point_ok 1 (Some (2, 7)) eq_refl eq_refl)
           (tiny_point_ok 2 (Some (3, 5)) eq_refl eq_refl)
           (tiny_point_ok 3 (Some (5, 2)) eq_refl eq_refl)).
Defined.

(** X2. Two Points of one curve compare equal exactly when [to_bytes]
    returns the same octet string for both, in either form. *)
Theorem eq_iff_same_bytes (C : Curve) (P Q : Point) (c : bool) (s : state) :
  Curve_ok C -> point_ok C P s -> point_ok C Q s ->
  exists bp bq b,
    to_bytes P c s = Returns bp s
    /\ to_bytes Q c s = Returns bq s
    /\ __eq__ P Q s = Returns b s
    /\ (b = true <-> bp = bq).
Proof.
  intros Hok (a & Ha)%point_ok_holds (b & Hb)%point_ok_holds.
  destruct (to_bytes_decodes C P c s a Hok Ha) as (bp & Hbp & Hdp).
  destruct (to_bytes_decodes C Q c s b Hok Hb) as (bq & Hbq & Hdq).
  exists bp, bq, (bool_decide (a = b)).
  split; [done|split; [done|split; [by apply (eq_holds C)|]]].
  rewrite bool_decide_eq_true. split.
  - intros <-. destruct Hok as [_ _ Hs].
    rewrite (to_bytes_same C P Q c s a Hs Ha Hb) in Hbp. congruence.
  - intros <-. congruence.
Qed.

Lemma eq_iff_same_bytes_witness :
  let P := {| ec_point := 1%positive; curve := tiny_curve |} in
  let Q := {| ec_point := 2%positive; curve := tiny_curve |} in
  exists bp bq b,
    to_bytes P true tiny_state = Returns bp tiny_state
    /\ to_bytes Q true tiny_state = Returns bq tiny_state
    /\ __eq__ P Q tiny_state = Returns b tiny_state
    /\ (b = true <-> bp = bq).
Proof.
  exact (eq_iff_same_bytes tiny_curve _ _ true tiny_state tiny_curve_ok
           (tiny_point_ok 1 (Some (2, 7)) eq_refl eq_refl)
           (tiny_point_ok 2 (Some (3, 5)) eq_refl eq_refl)).
Defined.

(** ** Octet strings *)

Lemma from_bytes_accepted C b0 rest s P s' :
  from_bytes (b0 :: rest) (Some C) s = Returns P s' ->
  exists g, decode_by_prefix (ec_group C) (byte_to_Z b0) rest = Some g
            /\ curve P = C /\ denotes s' (ec_group C) (ec_point P) g.
Proof.
  intros (g & Hdec & HC & Hd & _)%from_bytes_inv.
  rewrite ec_oct2point_cons in Hdec. by exists g.
Qed.

(** X3. Whatever octet string [from_bytes] accepts, the Point it returns
    holds a point of the curve: the point at infinity, or coordinates in
    the range of the field that satisfy the equation of the curve. *)
Theorem from_bytes_on_curve (C : Curve) (data : list byte) (s : state)
    (P : Point) (s' : state) :
  Curve_ok C -> from_bytes data (Some C) s = Returns P s' -> point_ok C P s'.
Proof.
  intros [Hp Ho _] H. destruct data as [|b0 rest].
  { apply from_bytes_inv in H as (g & Hdec & _). done. }
  apply from_bytes_accepted in H as (g & Hdec & HC & Hd).
  split; [done|]. exists g. split; [done|].
  apply decode_by_prefix_inv in Hdec
    as [(_ & _ & ->)|[(_ & _ & y & _ & Hv & _)|(_ & _ & _ & Hv)]]; done.
Qed.

Lemma from_bytes_on_curve_witness :
  exists P s',
    from_bytes [x02; x00; x00] (Some toy_curve) toy_state = Returns P s'
    /\ point_ok toy_curve P s'.
Proof.
  destruct (from_bytes_decoded [x02; x00; x00] toy_curve toy_state (Some (0, 4)) eq_refl)
    as (P & s' & Hfrom & _).
  exists P, s'. split; [exact Hfrom|].
  exact (from_bytes_on_curve toy_curve _ toy_state P s' toy_curve_ok Hfrom).
Defined.

(** X4. The encoding is canonical: an accepted octet string whose first
    byte is 00, 02 or 03 is what [to_bytes] returns, compressed, for the
    decoded Point; one whose first byte is 04 is what [to_bytes] returns
    uncompressed; and an accepted hybrid string, first byte 06 or 07, comes
    back with the first byte 04. *)
Theorem from_bytes_reencodes (C : Curve) (b0 : byte) (rest : list byte)
    (s : state) (P : Point) (s' : state) :
  Curve_ok C -> from_bytes (b0 :: rest) (Some C) s = Returns P s' ->
  (In (byte_to_Z b0) [0; 2; 3] -> to_bytes P true s' = Returns (b0 :: rest) s')
  /\ (byte_to_Z b0 = 4 -> to_bytes P false s' = Returns (b0 :: rest) s')
  /\ (In (byte_to_Z b0) [6; 7] -> to_bytes P false s' = Returns (x04 :: rest) s').
Proof.
  intros [Hp Ho Hs] H.
  apply from_bytes_accepted in H as (g & Hdec & <- & Hd).
  set (G := ec_group (curve P)) in *.
  pose proof (byte_of_to_Z b0) as Hb0.
  apply decode_by_prefix_inv in Hdec
    as [(Hv & -> & ->)|[(Hv & Hl & y & -> & Hval & Hodd)|(Hv & Hl & -> & Hval)]];
    try done.
  - (* the point at infinity *)
    split; [intros _|split; [intros ?; lia|intros Hin; cbn [In] in Hin; lia]].
    rewrite Hv in Hb0. rewrite <- Hb0. by apply to_bytes_infinity.
  - (* compressed *)
    apply andb_true_iff in Hval as [Hr _].
    split; [intros _|split; [intros ?; lia|intros Hin; cbn [In] in Hin; lia]].
    rewrite (to_bytes_finite P true s' _ _ Hs Hd Hr). do 2 f_equal.
    unfold sec1_octets, conversion_form, POINT_CONVERSION_COMPRESSED,
      POINT_CONVERSION_UNCOMPRESSED, POINT_CONVERSION_HYBRID.
    cbn [Z.eqb Pos.eqb orb andb]. rewrite app_nil_r.
    fold G. rewrite <- Hl, BN_bn2binpad_bin2bn. f_equal.
    rewrite Hodd, <- Hb0. destruct Hv as [-> | ->]; reflexivity.
  - (* uncompressed and hybrid *)
    apply andb_true_iff in Hval as [Hr _].
    assert (to_bytes P false s' = Returns (x04 :: rest) s') as Hto.
    { rewrite (to_bytes_finite P false s' _ _ Hs Hd Hr). do 2 f_equal.
      unfold sec1_octets, conversion_form, POINT_CONVERSION_COMPRESSED,
        POINT_CONVERSION_UNCOMPRESSED, POINT_CONVERSION_HYBRID.
      cbn [Z.eqb Pos.eqb orb andb]. fold G.
      set (k := BN_num_bytes (field G)) in *. f_equal.
      assert (length (take k rest) = k) as Ht by (rewrite length_take; lia).
      assert (length (drop k rest) = k) as Hdr by (rewrite length_drop; lia).
      pose proof (BN_bn2binpad_bin2bn (take k rest)) as E1. rewrite Ht in E1.
      pose proof (BN_bn2binpad_bin2bn (drop k rest)) as E2. rewrite Hdr in E2.
      rewrite E1, E2. apply take_drop. }
    split; [intros Hin; cbn [In] in Hin; lia|]. split; [|intros _; exact Hto].
    intros Hv4. rewrite Hv4 in Hb0. rewrite <- Hb0. exact Hto.
Qed.

Lemma from_bytes_reencodes_witness :
  exists P s',
    from_bytes [x06; x00; x00; x00; x04] (Some toy_curve) toy_state = Returns P s'
    /\ (In (byte_to_Z x06) [0; 2; 3] ->
        to_bytes P true s' = Returns [x06; x00; x00; x00; x04] s')
    /\ (byte_to_Z x06 = 4 -> to_bytes P false s' = Returns [x06; x00; x00; x00; x04] s')
    /\ (In (byte_to_Z x06) [6; 7] ->
        to_bytes P false s' = Returns [x04; x00; x00; x00; x04] s').
Proof.
  destruct (from_bytes_decoded [x06; x00; x00; x00; x04] toy_curve toy_state
              (Some (0, 4)) eq_refl) as (P & s' & Hfrom & _).
  exists P, s'. split; [exact Hfrom|].
  exact (from_bytes_reencodes toy_curve _ _ toy_state P s' toy_curve_ok Hfrom).
Defined.

Lemma to_bytes_compressed C (P : Point) s x y :
  Curve_ok C -> holds C P s (Some (x, y)) ->
  to_bytes P true s
  = Returns ((if Z.odd y then x03 else x02)
             :: BN_bn2binpad x (field_order_size_in_bytes C)) s.
Proof.
  intros [Hp Ho Hs] (<- & Hd & [Hr _]%andb_true_iff).
  rewrite (to_bytes_finite P true s x y Hs Hd Hr). do 2 f_equal.
  unfold sec1_octets, conversion_form, POINT_CONVERSION_COMPRESSED,
    POINT_CONVERSION_UNCOMPRESSED, POINT_CONVERSION_HYBRID, BN_is_odd.
  cbn [Z.eqb Pos.eqb orb andb]. rewrite app_nil_r, Hs.
  destruct (Z.odd y); reflexivity.
Qed.

(** X5. The wire format of a finite point [(x, y)]: compressed, and so for
    [__bytes__], the byte 02 or 03 by the parity of [y], then [x] in
    big-endian on [field_order_size_in_bytes] bytes; uncompressed, the byte
    04, then [x] and [y], each on as many bytes. *)
Theorem to_bytes_wire_format (C : Curve) (P : Point) (s : state) (x y : Z) :
  Curve_ok C -> holds C P s (Some (x, y)) ->
  let k := field_order_size_in_bytes C in
  (exists X,
      to_bytes P true s = Returns ((if Z.odd y then x03 else x02) :: X) s
      /\ __bytes__ P s = Returns ((if Z.odd y then x03 else x02) :: X) s
      /\ length X = k /\ BN_bin2bn X = x)
  /\ (exists X Y,
        to_bytes P false s = Returns (x04 :: X ++ Y) s
        /\ length X = k /\ length Y = k
        /\ BN_bin2bn X = x /\ BN_bin2bn Y = y).
Proof.
  intros Hok Hh k. pose proof (to_bytes_compressed C P s x y Hok Hh) as Hc.
  fold k in Hc. destruct Hok as [Hp Ho Hs]. destruct Hh as (<- & Hd & Hv).
  set (G := ec_group (curve P)) in *.
  apply andb_true_iff in Hv as [Hr _].
  pose proof Hr as [Hx Hy]%is_reduced_range.
  pose proof (reduced_fits G x Hx) as Hkx. pose proof (reduced_fits G y Hy) as Hky.
  split.
  - exists (BN_bn2binpad x k). split; [exact Hc|]. split; [exact Hc|].
    split; [apply length_BN_bn2binpad|]. apply BN_bin2bn_fits; [lia|].
    unfold k. rewrite Hs. exact Hkx.
  - exists (BN_bn2binpad x k), (BN_bn2binpad y k).
    split; [|rewrite !length_BN_bn2binpad, !BN_bin2bn_fits;
             unfold k; rewrite ?Hs; done || lia].
    rewrite (to_bytes_finite P false s x y Hs Hd Hr). do 2 f_equal.
    unfold k. rewrite Hs. reflexivity.
Qed.

Lemma to_bytes_wire_format_witness :
  (exists X,
      to_bytes toy_generator true toy_state = Returns ((if Z.odd 4 then x03 else x02) :: X) toy_state
      /\ __bytes__ toy_generator toy_state
         = Returns ((if Z.odd 4 then x03 else x02) :: X) toy_state
      /\ length X = 2%nat /\ BN_bin2bn X = 0)
  /\ (exists X Y,
        to_bytes toy_generator false toy_state = Returns (x04 :: X ++ Y) toy_state
        /\ length X = 2%nat /\ length Y = 2%nat
        /\ BN_bin2bn X = 0 /\ BN_bin2bn Y = 4).
Proof.
  exact (to_bytes_wire_format toy_curve toy_generator toy_state 0 4 toy_curve_ok
           (conj eq_refl (conj toy_generator_denotes eq_refl))).
Defined.

Lemma ec_point2oct_bound G g form buf len n out :
  ec_point2oct G g form buf len = (S n, out) ->
  (S n <= len)%nat /\ (1 <= length out)%nat.
Proof.
  unfold ec_point2oct. destruct (negb _); [done|].
  destruct g as [[x y]|].
  - cbv zeta.
    destruct (Nat.ltb_spec len
                (if (form =? POINT_CONVERSION_COMPRESSED)%Z
                 then (1 + BN_num_bytes (field G))%nat
                 else (1 + 2 * BN_num_bytes (field G))%nat)); [done|].
    destruct (_ <? _)%nat; [done|]. destruct (_ <? _)%nat; [done|].
    intros [= Hn <-]. split; [rewrite <- Hn; assumption|].
    unfold write_buf. cbn [length app]. lia.
  - destruct (Nat.ltb_spec len 1); [done|].
    intros [= <- <-]. split; [lia|]. unfold write_buf. cbn [length app]. lia.
Qed.

(** X6. [to_bytes] returns at least one byte and never more than
    [expected_bytes_length] says, whatever the Point and its curve
    descriptor; when the native encoder reports nothing written, it raises
    and returns no bytes. *)
Theorem to_bytes_bounded (P : Point) (c : bool) (s : state) :
  let k := field_order_size_in_bytes (curve P) in
  match to_bytes P c s with
  | Returns bs _ => (1 <= length bs <= (if c then 1 + k else 1 + 2 * k))%nat
  | Raises e => e = InternalError
  end.
Proof.
  intros k. unfold to_bytes. run_bind. rewrite expected_bytes_length_eq. fold k.
  set (len := if c then (1 + k)%nat else (1 + 2 * k)%nat).
  unfold EC_POINT_point2oct. destruct (deref _ _ _) as [pt|]; [|reflexivity].
  destruct (ec_point2oct _ _ _ _ _) as [[|n] out] eqn:E; [reflexivity|].
  apply ec_point2oct_bound in E as [Hn Hout]. cbn. rewrite length_take. lia.
Qed.

(** ** Opposite, difference and neutral element *)

(** X7. The opposite of the opposite of a Point of the curve compares
    equal to the Point. *)
Theorem neg_involutive (C : Curve) (P : Point) (s : state) :
  Curve_ok C -> point_ok C P s ->
  exists N s1 M s2,
    __neg__ P s = Returns N s1
    /\ __neg__ N s1 = Returns M s2
    /\ __eq__ M P s2 = Returns true s2.
Proof.
  intros Hok (a & Ha)%point_ok_holds.
  destruct (neg_holds C P s a Hok Ha) as (N & s1 & Hn1 & HN & Hp1).
  destruct (neg_holds C N s1 _ Hok HN) as (M & s2 & Hn2 & HM & Hp2).
  exists N, s1, M, s2. split; [done|split; [done|]].
  pose proof Ha as (_ & _ & [Hr _]%andb_true_iff).
  rewrite ec_neg_involutive in HM by (done || apply Hok).
  apply (eq_holds_true C M P s2 a HM).
  eapply holds_preserved; [|exact Ha]. eapply preserved_trans; eassumption.
Qed.

Lemma neg_involutive_witness :
  exists N s1 M s2,
    __neg__ toy_generator toy_state = Returns N s1
    /\ __neg__ N s1 = Returns M s2
    /\ __eq__ M toy_generator s2 = Returns true s2.
Proof.
  exact (neg_involutive toy_curve toy_generator toy_state toy_curve_ok
           toy_generator_point_ok).
Defined.

(** X8. The difference [P - P] is the neutral element of the addition: its
    octet string is the single byte 00, and a Point [Q] of the curve added
    to it on either side compares equal to [Q]. *)
Theorem sub_self_neutral (C : Curve) (P Q : Point) (c : bool) (s : state) :
  Curve_ok C -> point_ok C P s -> point_ok C Q s ->
  exists Z s1 A s2 B s3,
    __sub__ P P s = Returns Z s1
    /\ to_bytes Z c s1 = Returns [x00] s1
    /\ __add__ Q Z s1 = Returns A s2
    /\ __add__ Z Q s2 = Returns B s3
    /\ __eq__ A Q s3 = Returns true s3
    /\ __eq__ B Q s3 = Returns true s3.
Proof.
  intros Hok (a & Ha)%point_ok_holds (b & Hb)%point_ok_holds.
  destruct (sub_holds C P P s a a Hok Ha Ha) as (Z & s1 & Hsub & HZ & Hp1).
  pose proof Ha as (_ & _ & [Hr _]%andb_true_iff).
  rewrite ec_add_neg_r in HZ by (done || apply Hok).
  pose proof (holds_preserved _ _ _ _ _ Hp1 Hb) as Hb1.
  destruct (add_holds C Q Z s1 b None Hok Hb1 HZ) as (A & s2 & HaddA & HA & Hp2).
  rewrite ec_add_None_r in HA.
  destruct (add_holds C Z Q s2 None b Hok) as (B & s3 & HaddB & HB & Hp3);
    [eapply holds_preserved; eassumption..|].
  pose proof (holds_preserved _ _ _ _ _ (preserved_trans _ _ _ Hp2 Hp3) Hb1) as Hb3.
  exists Z, s1, A, s2, B, s3.
  split; [done|]. split.
  { apply to_bytes_infinity. destruct HZ as (-> & HdZ & _). exact HdZ. }
  split; [done|split; [done|split]].
  - apply (eq_holds_true C A Q s3 b); [|done]. eapply holds_preserved; eassumption.
  - by apply (eq_holds_true C B Q s3 b).
Qed.

Lemma sub_self_neutral_witness :
  let P := {| ec_point := 1%positive; curve := tiny_curve |} in
  let Q := {| ec_point := 2%positive; curve := tiny_curve |} in
  exists Z s1 A s2 B s3,
    __sub__ P P tiny_state = Returns Z s1
    /\ to_bytes Z true s1 = Returns [x00] s1
    /\ __add__ Q Z s1 = Returns A s2
    /\ __add__ Z Q s2 = Returns B s3
    /\ __eq__ A Q s3 = Returns true s3
    /\ __eq__ B Q s3 = Returns true s3.
Proof.
  exact (sub_self_neutral tiny_curve _ _ true tiny_state tiny_curve_ok
           (tiny_point_ok 1 (Some (2, 7)) eq_refl eq_refl)
           (tiny_point_ok 2 (Some (3, 5)) eq_refl eq_refl)).
Defined.

(** X9. The operators stay on the curve: on Points of one curve [__add__],
    [__sub__], [__neg__] and [__mul__] return, and return a Point of that
    curve. *)
Theorem operators_stay_on_curve (C : Curve) (P Q : Point) (n : CurveBN)
    (s : state) :
  Curve_ok C -> point_ok C P s -> point_ok C Q s ->
  (exists R s', __add__ P Q s = Returns R s' /\ point_ok C R s')
  /\ (exists R s', __sub__ P Q s = Returns R s' /\ point_ok C R s')
  /\ (exists R s', __neg__ P s = Returns R s' /\ point_ok C R s')
  /\ (exists R s', __mul__ P n s = Returns R s' /\ point_ok C R s').
Proof.
  intros Hok (a & Ha)%point_ok_holds (b & Hb)%point_ok_holds.
  split; [|split; [|split]].
  - destruct (add_holds C P Q s a b Hok Ha Hb) as (R & s' & Hrun & HR & _).
    exists R, s'. split; [done|]. apply point_ok_holds. eauto.
  - destruct (sub_holds C P Q s a b Hok Ha Hb) as (R & s' & Hrun & HR & _).
    exists R, s'. split; [done|]. apply point_ok_holds. eauto.
  - destruct (neg_holds C P s a Hok Ha) as (R & s' & Hrun & HR & _).
    exists R, s'. split; [done|]. apply point_ok_holds. eauto.
  - destruct (mul_holds C P n s a Hok Ha) as (R & s' & Hrun & HR & _).
    exists R, s'. split; [done|]. apply point_ok_holds. eauto.
Qed.

Lemma operators_stay_on_curve_witness :
  let P := {| ec_point := 1%positive; curve := tiny_curve |} in
  let Q := {| ec_point := 2%positive; curve := tiny_curve |} in
  let n := {| bignum := 6; bn_curve := tiny_curve |} in
  (exists R s', __add__ P Q tiny_state = Returns R s' /\ point_ok tiny_curve R s')
  /\ (exists R s', __sub__ P Q tiny_state = Returns R s' /\ point_ok tiny_curve R s')
  /\ (exists R s', __neg__ P tiny_state = Returns R s' /\ point_ok tiny_curve R s')
  /\ (exists R s', __mul__ P n tiny_state = Returns R s' /\ point_ok tiny_curve R s').
Proof.
  exact (operators_stay_on_curve tiny_curve _ _ _ tiny_state tiny_curve_ok
           (tiny_point_ok 1 (Some (2, 7)) eq_refl eq_refl)
           (tiny_point_ok 2 (Some (3, 5)) eq_refl eq_refl)).
Defined.

(** ** Handles *)

(** X10. A Point that [gen_rand], [from_affine], [from_bytes], [__mul__],
    [__rmul__], [__add__], [__sub__] or [__neg__] returns is on a handle
    that was not in use before the call, so it shares its native point with
    no Point that existed, and the call leaves every native point that
    existed as it was: no operator writes to an operand. *)
Theorem results_are_fresh (self other : Point) (n : CurveBN) (coords : Z * Z)
    (data : list byte) (cv : option Curve) (s : state) :
  fresh_result s (gen_rand cv s)
  /\ fresh_result s (from_affine coords cv s)
  /\ fresh_result s (from_bytes data cv s)
  /\ fresh_result s (__mul__ self n s)
  /\ fresh_result s (__rmul__ self n s)
  /\ fresh_result s (__add__ self other s)
  /\ fresh_result s (__sub__ self other s)
  /\ fresh_result s (__neg__ self s).
Proof.
  repeat match goal with |- _ /\ _ => split end.
  - apply (fresh_result_resolved gen_rand); [apply falls_back_resolved|].
    intros C. apply fresh_result_gen_rand.
  - apply (fresh_result_resolved (from_affine coords)).
    + destruct coords as [x y]. apply (falls_back_resolved (fun curve => _)).
    + intros C. apply fresh_result_from_affine.
  - apply (fresh_result_resolved (from_bytes data)); [apply falls_back_resolved|].
    intros C. apply fresh_result_from_bytes.
  - apply fresh_result_mul.
  - apply fresh_result_mul.
  - apply fresh_result_add.
  - apply fresh_result_sub.
  - apply fresh_result_neg.
Qed.

(** X11. [to_bytes], [__bytes__], [to_affine], [__eq__],
    [expected_bytes_length] and [get_generator_from_curve] only read: when
    they return, the native points, the configuration and the random source
    are what they were. *)
Theorem observers_leave_state (self other : Point) (c : bool)
    (cv : option Curve) (s : state) :
  leaves_state s (to_bytes self c s)
  /\ leaves_state s (__bytes__ self s)
  /\ leaves_state s (to_affine self s)
  /\ leaves_state s (__eq__ self other s)
  /\ leaves_state s (expected_bytes_length cv c s)
  /\ leaves_state s (get_generator_from_curve cv s).
Proof.
  assert (forall c, leaves_state s (to_bytes self c s)) as Hto.
  { intros c'. unfold to_bytes. run_bind. rewrite expected_bytes_length_eq.
    unfold EC_POINT_point2oct.
    destruct (deref _ _ _) as [pt|]; [|exact I].
    destruct (ec_point2oct _ _ _ _ _) as [[|m] out]; cbn; done. }
  repeat match goal with |- _ /\ _ => split end.
  - apply Hto.
  - apply Hto.
  - unfold to_affine, _get_affine_coords_via_EC_POINT,
      EC_POINT_get_affine_coordinates_GFp. run_bind.
    destruct (deref _ _ _) as [pt|]; [|exact I].
    destruct (pt_coords pt) as [[x y]|]; cbn; done.
  - unfold __eq__, EC_POINT_cmp. run_bind.
    destruct (deref _ _ _) as [pa|]; [|exact I].
    destruct (deref _ _ _) as [pb|]; [|exact I].
    destruct (decide _); cbn; done.
  - unfold expected_bytes_length, default_curve. run_bind.
    destruct cv as [C|]; [destruct c; done|].
    destruct (config_curve s); [destruct c; done|exact I].
  - unfold get_generator_from_curve, default_curve. run_bind.
    destruct cv as [C|]; [done|]. destruct (config_curve s); done.
Qed.

(** ** Operands of different curves *)

Lemma add_foreign (self other : Point) (s : state) (pt : EC_POINT) :
  heap s !! ec_point other = Some pt ->
  ec_point_is_compat pt (ec_group (curve self)) = false ->
  __add__ self other s = Raises InternalError.
Proof.
  intros Hh Hc. unfold __add__. run_bind. rewrite _get_new_EC_POINT_eq.
  unfold EC_POINT_add.
  assert (deref (ec_group (curve self)) (ec_point other)
            (alloc (ec_group (curve self)) s) = None) as ->.
  { unfold deref, alloc, set_heap. cbn [heap].
    rewrite lookup_insert_ne, Hh, Hc; [done|].
    intros E. rewrite <- E, fresh_heap in Hh. done. }
  destruct (deref _ _ _); [destruct (deref _ _ _)|]; reflexivity.
Qed.

(** X12. Operands of different curves: when the native point of [other]
    belongs to a named curve that is not the curve of [self], [self + other],
    [self - other] and [self == other] raise the [InternalError] of
    [openssl_assert]; none returns a Point or a truth value. *)
Theorem foreign_operand_raises (self other : Point) (s : state) (pt : EC_POINT) :
  heap s !! ec_point other = Some pt ->
  ec_point_is_compat pt (ec_group (curve self)) = false ->
  __add__ self other s = Raises InternalError
  /\ __sub__ self other s = Raises InternalError
  /\ __eq__ self other s = Raises InternalError.
Proof.
  intros Hh Hc. split; [by apply (add_foreign self other s pt)|]. split.
  - unfold __sub__. unfold mbind at 1, M_bind at 1.
    destruct (deref (ec_group (curve other)) (ec_point other) s) as [pa|] eqn:Hd.
    + destruct (deref_compat _ _ _ _ Hd) as [Hl Hco].
      assert (pa = pt) as -> by congruence.
      set (h := fresh (dom (heap s))).
      set (G' := ec_group (curve other)) in *.
      set (s0 := set_heap (<[h := pt]> (heap s)) s).
      assert (deref G' h s0 = Some pt) as Hh0.
      { unfold deref, s0, set_heap. cbn [heap]. rewrite lookup_insert_eq, Hco. done. }
      assert (__neg__ other s
              = Returns (Build_Point h (curve other))
                  (store h pt (ec_neg G' (pt_coords pt)) s0)) as ->.
      { unfold __neg__, EC_POINT_dup. run_bind. fold G'. rewrite Hd.
        unfold EC_POINT_invert. fold h s0. rewrite Hh0. reflexivity. }
      apply (add_foreign self _ _
               {| pt_curve_name := pt_curve_name pt;
                  pt_coords := ec_neg G' (pt_coords pt) |}); [|exact Hc].
      unfold store, set_heap. cbn [heap ec_point]. apply lookup_insert_eq.
    + unfold __neg__, EC_POINT_dup. run_bind. rewrite Hd. reflexivity.
  - unfold __eq__, EC_POINT_cmp. run_bind.
    assert (deref (ec_group (curve self)) (ec_point other) s = None) as ->
      by (unfold deref; rewrite Hh, Hc; done).
    destruct (deref _ _ _); reflexivity.
Qed.

Lemma foreign_operand_raises_witness :
  let other := {| ec_point := 2%positive; curve := tiny_curve |} in
  __add__ toy_generator other mixed_state = Raises InternalError
  /\ __sub__ toy_generator other mixed_state = Raises InternalError
  /\ __eq__ toy_generator other mixed_state = Raises InternalError.
Proof.
  exact (foreign_operand_raises toy_generator
           {| ec_point := 2%positive; curve := tiny_curve |} mixed_state
           {| pt_curve_name := 9002; pt_coords := Some (2, 7) |} eq_refl eq_refl).
Defined.

(** ** Scalars *)

(** X13. Scalar multiplication distributes over the sum of two scalars
    taken modulo the order: [P * ((a + b) mod order)] compares equal to
    [P * a + P * b], for non-negative scalars and a point that the order of
    the curve sends to the point at infinity, given the associativity of
    the native addition. *)
Theorem scalar_distributivity (C : Curve) (P : Point) (a b : CurveBN)
    (s : state) (g : affine) :
  Curve_ok C -> holds C P s g ->
  ec_add_assoc (ec_group C) ->
  0 < order (ec_group C) -> ec_mul (ec_group C) (order (ec_group C)) g = None ->
  0 <= bignum a -> 0 <= bignum b ->
  exists A s1 B s2 S s3 T s4,
    __mul__ P a s = Returns A s1
    /\ __rmul__ P b s1 = Returns B s2
    /\ __add__ A B s2 = Returns S s3
    /\ __mul__ P {| bignum := (bignum a + bignum b) mod order (ec_group C);
                    bn_curve := C |} s3 = Returns T s4
    /\ __eq__ T S s4 = Returns true s4.
Proof.
  intros Hok Hg Hassoc Hn Hn0 Ha Hb. set (G := ec_group C) in *.
  destruct (mul_holds C P a s g Hok Hg) as (A & s1 & HmA & HA & Hp1).
  pose proof (holds_preserved _ _ _ _ _ Hp1 Hg) as Hg1.
  destruct (mul_holds C P b s1 g Hok Hg1) as (B & s2 & HmB & HB & Hp2).
  pose proof (holds_preserved _ _ _ _ _ Hp2 Hg1) as Hg2.
  destruct (add_holds C A B s2 _ _ Hok (holds_preserved _ _ _ _ _ Hp2 HA) HB)
    as (S & s3 & Hadd & HS & Hp3).
  pose proof (holds_preserved _ _ _ _ _ Hp3 Hg2) as Hg3.
  destruct (mul_holds C P {| bignum := (bignum a + bignum b) mod order G;
                             bn_curve := C |} s3 g Hok Hg3)
    as (T & s4 & HmT & HT & Hp4).
  exists A, s1, B, s2, S, s3, T, s4.
  split; [done|split; [done|split; [done|split; [done|]]]].
  cbn [bignum] in HT. fold G in HS, HT.
  destruct Hok as [Hp Ho _]. pose proof Hg as (_ & _ & Hv).
  rewrite (ec_mul_mod G Hp Ho Hassoc) in HT by (done || lia).
  rewrite (ec_mul_add_nonneg G Hp Ho Hassoc) in HT by done.
  apply (eq_holds_true C T S s4 _ HT). eapply holds_preserved; eassumption.
Qed.

Lemma scalar_distributivity_witness :
  let P := {| ec_point := 1%positive; curve := tiny_curve |} in
  let a := {| bignum := 5; bn_curve := tiny_curve |} in
  let b := {| bignum := 11; bn_curve := tiny_curve |} in
  exists A s1 B s2 S s3 T s4,
    __mul__ P a tiny_state = Returns A s1
    /\ __rmul__ P b s1 = Returns B s2
    /\ __add__ A B s2 = Returns S s3
    /\ __mul__ P {| bignum := (5 + 11) mod 13; bn_curve := tiny_curve |} s3
       = Returns T s4
    /\ __eq__ T S s4 = Returns true s4.
Proof.
  assert (holds tiny_curve {| ec_point := 1%positive; curve := tiny_curve |}
            tiny_state (Some (2, 7))) as Hg.
  { split; [reflexivity|]. split; [|reflexivity]. eexists. split; reflexivity. }
  exact (scalar_distributivity tiny_curve _
           {| bignum := 5; bn_curve := tiny_curve |}
           {| bignum := 11; bn_curve := tiny_curve |}
           tiny_state (Some (2, 7)) tiny_curve_ok Hg tiny_assoc
           eq_refl eq_refl ltac:(cbn; lia) ltac:(cbn; lia)).
Defined.

(** X14. Subtraction is undone by addition: [(P - Q) + Q] compares equal
    to [P] on Points of one curve, given the associativity of the native
    addition. *)
Theorem sub_add_cancel (C : Curve) (P Q : Point) (s : state) :
  Curve_ok C -> point_ok C P s -> point_ok C Q s ->
  ec_add_assoc (ec_group C) ->
  exists D s1 R s2,
    __sub__ P Q s = Returns D s1
    /\ __add__ D Q s1 = Returns R s2
    /\ __eq__ R P s2 = Returns true s2.
Proof.
  intros Hok (a & Ha)%point_ok_holds (b & Hb)%point_ok_holds Hassoc.
  set (G := ec_group C) in *.
  destruct (sub_holds C P Q s a b Hok Ha Hb) as (D & s1 & Hsub & HD & Hp1).
  destruct (add_holds C D Q s1 _ b Hok HD (holds_preserved _ _ _ _ _ Hp1 Hb))
    as (R & s2 & Hadd & HR & Hp2).
  exists D, s1, R, s2. split; [done|split; [done|]].
  pose proof Ha as (_ & _ & Hva). pose proof Hb as (_ & _ & Hvb).
  pose proof Hvb as [Hrb _]%andb_true_iff.
  destruct Hok as [Hp Ho _].
  pose proof (valid_point_neg G Hp Ho b Hvb) as Hvn.
  pose proof Hvn as [Hrn _]%andb_true_iff.
  fold G in HR.
  rewrite Hassoc, (ec_add_comm G Hp (ec_neg G b) b), ec_add_neg_r, ec_add_None_r
    in HR by done.
  apply (eq_holds_true C R P s2 a HR).
  eapply holds_preserved; [|exact Ha]. eapply preserved_trans; eassumption.
Qed.

Lemma sub_add_cancel_witness :
  let P := {| ec_point := 1%positive; curve := tiny_curve |} in
  let Q := {| ec_point := 2%positive; curve := tiny_curve |} in
  exists D s1 R s2,
    __sub__ P Q tiny_state = Returns D s1
    /\ __add__ D Q s1 = Returns R s2
    /\ __eq__ R P s2 = Returns true s2.
Proof.
  exact (sub_add_cancel tiny_curve _ _ tiny_state tiny_curve_ok
           (tiny_point_ok 1 (Some (2, 7)) eq_refl eq_refl)
           (tiny_point_ok 2 (Some (3, 5)) eq_refl eq_refl) tiny_assoc).
Defined.

(** ** Random points and affine coordinates *)

(** X15. The Point of [gen_rand] is the generator multiplied by the scalar
    that [CurveBN.gen_rand] draws: it compares equal to
    [get_generator_from_curve(C) * r], [r] being the draw that [gen_rand]
    consumed. *)
Theorem gen_rand_is_multiple (C : Curve) (s : state) (g : affine) :
  denotes s (ec_group C) (generator C) g ->
  exists r s0 P s1 Gen Q s2,
    CurveBN_gen_rand C s = Returns r s0
    /\ gen_rand (Some C) s = Returns P s1
    /\ get_generator_from_curve (Some C) s1 = Returns Gen s1
    /\ __mul__ Gen r s1 = Returns Q s2
    /\ __eq__ P Q s2 = Returns true s2.
Proof.
  intros Hg. set (G := ec_group C) in *.
  destruct (gen_rand_spec C s g Hg) as (P & s1 & Hgen & HC & HdP & Hal).
  apply allocated_preserved in Hal.
  pose proof (denotes_preserved _ _ _ _ _ Hal Hg) as Hg1.
  set (r := {| bignum := entropy s (drawn s) mod order G; bn_curve := C |}).
  destruct (__mul___spec (Build_Point (generator C) C) r s1 g Hg1)
    as (Q & s2 & Hmul & HQ & HdQ & Hal2).
  apply allocated_preserved in Hal2.
  eexists r, _, P, s1, (Build_Point (generator C) C), Q, s2.
  split; [reflexivity|]. split; [done|]. split; [reflexivity|]. split; [done|].
  rewrite (__eq___spec P Q s2 (ec_mul G (bignum r) g) (ec_mul G (bignum r) g)).
  - by rewrite bool_decide_eq_true_2.
  - rewrite HC. eapply denotes_preserved; [exact Hal2|exact HdP].
  - rewrite HC. exact HdQ.
Qed.

Lemma gen_rand_is_multiple_witness :
  exists r s0 P s1 Gen Q s2,
    CurveBN_gen_rand toy_curve toy_state = Returns r s0
    /\ gen_rand (Some toy_curve) toy_state = Returns P s1
    /\ get_generator_from_curve (Some toy_curve) s1 = Returns Gen s1
    /\ __mul__ Gen r s1 = Returns Q s2
    /\ __eq__ P Q s2 = Returns true s2.
Proof.
  exact (gen_rand_is_multiple toy_curve toy_state (Some (0, 4)) toy_generator_denotes).
Defined.

(** X16. Affine coordinates round trip: for a Point holding the point
    [(x, y)] of the curve, [to_affine] returns [(x, y)], and [from_affine]
    on that pair returns a Point that compares equal to it and has the same
    coordinates.  For the point at infinity, which has no coordinates,
    [to_affine] raises. *)
Theorem affine_roundtrip (C : Curve) (P : Point) (s : state) (g : affine) :
  holds C P s g ->
  match g with
  | Some (x, y) =>
      to_affine P s = Returns (x, y) s
      /\ exists Q s',
           from_affine (x, y) (Some C) s = Returns Q s'
           /\ __eq__ Q P s' = Returns true s'
           /\ to_affine Q s' = Returns (x, y) s'
  | None => to_affine P s = Raises InternalError
  end.
Proof.
  intros (<- & Hd & Hv). set (G := ec_group (curve P)) in *.
  destruct g as [[x y]|]; [|by apply to_affine_infinity].
  split; [by apply to_affine_finite|].
  apply andb_true_iff in Hv as [[Hx Hy]%is_reduced_range _].
  destruct (from_affine_spec x y (curve P) s) as (Q & s' & Hfrom & HC & HdQ & Hal).
  fold G in HdQ. rewrite !Z.mod_small in HdQ by done.
  apply allocated_preserved in Hal.
  exists Q, s'. split; [done|]. split.
  - rewrite (__eq___spec Q P s' (Some (x, y)) (Some (x, y))).
    + by rewrite bool_decide_eq_true_2.
    + rewrite HC. exact HdQ.
    + rewrite HC. eapply denotes_preserved; eassumption.
  - apply to_affine_finite. rewrite HC. exact HdQ.
Qed.

Lemma affine_roundtrip_witness :
  to_affine toy_generator toy_state = Returns (0, 4) toy_state
  /\ exists Q s',
       from_affine (0, 4) (Some toy_curve) toy_state = Returns Q s'
       /\ __eq__ Q toy_generator s' = Returns true s'
       /\ to_affine Q s' = Returns (0, 4) s'.
Proof.
  exact (affine_roundtrip toy_curve toy_generator toy_state (Some (0, 4))
           (conj eq_refl (conj toy_generator_denotes eq_refl))).
Defined.

(** ** More on octet strings and coordinates *)

Lemma odd_opp_mod p y :
  Z.odd p = true -> 0 < y < p -> Z.odd ((- y) mod p) = negb (Z.odd y).
Proof.
  intros Hp Hy.
  assert ((- y) mod p = p - y) as -> by (symmetry; apply (Z.mod_unique _ _ (-1)); lia).
  rewrite Z.odd_sub, Hp. destruct (Z.odd y); reflexivity.
Qed.

(** X17. Negation and the compressed form: the opposite of a point with a
    non-zero ordinate has the same compressed octet string except for the
    first byte, which goes from 02 to 03 or from 03 to 02. *)
Theorem neg_flips_parity_byte (C : Curve) (P : Point) (s : state) (x y : Z) :
  Curve_ok C -> holds C P s (Some (x, y)) -> y <> 0 ->
  exists X N s1,
    to_bytes P true s = Returns ((if Z.odd y then x03 else x02) :: X) s
    /\ __neg__ P s = Returns N s1
    /\ to_bytes N true s1 = Returns ((if Z.odd y then x02 else x03) :: X) s1.
Proof.
  intros Hok Hh Hy0.
  destruct (neg_holds C P s _ Hok Hh) as (N & s1 & Hneg & HN & _).
  exists (BN_bn2binpad x (field_order_size_in_bytes C)), N, s1.
  split; [by apply to_bytes_compressed|]. split; [done|].
  cbn [ec_neg] in HN. rewrite (to_bytes_compressed C N s1 _ _ Hok HN).
  do 2 f_equal. destruct Hh as (_ & _ & [[_ Hy]%is_reduced_range _]%andb_true_iff).
  destruct Hok as [Hp Ho _].
  rewrite odd_opp_mod by (apply field_odd || lia; done).
  destruct (Z.odd y); reflexivity.
Qed.

Lemma neg_flips_parity_byte_witness :
  exists X N s1,
    to_bytes toy_generator true toy_state
    = Returns ((if Z.odd 4 then x03 else x02) :: X) toy_state
    /\ __neg__ toy_generator toy_state = Returns N s1
    /\ to_bytes N true s1 = Returns ((if Z.odd 4 then x02 else x03) :: X) s1.
Proof.
  exact (neg_flips_parity_byte toy_curve toy_generator toy_state 0 4 toy_curve_ok
           (conj eq_refl (conj toy_generator_denotes eq_refl)) ltac:(lia)).
Defined.

(** X18. What [from_bytes] decodes is what [to_affine] reads: after an
    accepted string that starts with 04, 06 or 07, the coordinates are the
    two big-endian numbers of the string; after one that starts with 02 or
    03, the abscissa is the number of the string and the ordinate has the
    parity of the first byte and satisfies the equation of the curve; after
    the string 00, the point at infinity, [to_affine] raises. *)
Theorem from_bytes_coordinates (C : Curve) (b0 : byte) (rest : list byte)
    (s : state) (P : Point) (s' : state) :
  Curve_ok C -> from_bytes (b0 :: rest) (Some C) s = Returns P s' ->
  let k := field_order_size_in_bytes C in
  (In (byte_to_Z b0) [4; 6; 7] ->
   to_affine P s' = Returns (BN_bin2bn (take k rest), BN_bin2bn (drop k rest)) s')
  /\ (In (byte_to_Z b0) [2; 3] ->
      exists y, to_affine P s' = Returns (BN_bin2bn rest, y) s'
                /\ Z.odd y = Z.odd (byte_to_Z b0)
                /\ is_on_curve (ec_group C) (Some (BN_bin2bn rest, y)) = true)
  /\ (byte_to_Z b0 = 0 -> to_affine P s' = Raises InternalError).
Proof.
  intros [Hp Ho Hs] H k.
  apply from_bytes_accepted in H as (g & Hdec & <- & Hd).
  unfold k. rewrite Hs.
  apply decode_by_prefix_inv in Hdec
    as [(Hv & -> & ->)|[(Hv & Hl & y & -> & Hval & Hodd)|(Hv & Hl & -> & Hval)]];
    try done.
  - split; [intros Hin; cbn [In] in Hin; lia|].
    split; [intros Hin; cbn [In] in Hin; lia|].
    intros _. by apply to_affine_infinity.
  - split; [intros Hin; cbn [In] in Hin; lia|]. split; [|intros ?; lia].
    intros _. exists y. split; [by apply to_affine_finite|].
    apply andb_true_iff in Hval as [_ Hc]. split; [|exact Hc].
    unfold BN_is_odd in Hodd. rewrite Hodd. destruct Hv as [-> | ->]; reflexivity.
  - split; [intros _; by apply to_affine_finite|].
    split; [intros Hin; cbn [In] in Hin; lia|intros ?; lia].
Qed.

Lemma from_bytes_coordinates_witness :
  exists P s',
    from_bytes [x04; x00; x00; x00; x04] (Some toy_curve) toy_state = Returns P s'
    /\ (In (byte_to_Z x04) [4; 6; 7] ->
        to_affine P s'
        = Returns (BN_bin2bn (take 2 [x00; x00; x00; x04]),
                   BN_bin2bn (drop 2 [x00; x00; x00; x04])) s')
    /\ (In (byte_to_Z x04) [2; 3] ->
        exists y, to_affine P s' = Returns (BN_bin2bn [x00; x00; x00; x04], y) s'
                  /\ Z.odd y = Z.odd (byte_to_Z x04)
                  /\ is_on_curve (ec_group toy_curve)
                       (Some (BN_bin2bn [x00; x00; x00; x04], y)) = true)
    /\ (byte_to_Z x04 = 0 -> to_affine P s' = Raises InternalError).
Proof.
  destruct (from_bytes_decoded [x04; x00; x00; x00; x04] toy_curve toy_state
              (Some (0, 4)) eq_refl) as (P & s' & Hfrom & _).
  exists P, s'. split; [exact Hfrom|].
  exact (from_bytes_coordinates toy_curve _ _ toy_state P s' toy_curve_ok Hfrom).
Defined.

(** ** The scalars zero, one and two *)

(** X19. Multiplication by the scalars 0, 1 and 2 on a Point of the curve:
    [P * 0] is the point at infinity, whose octet string is the single byte
    00; [P * 1] compares equal to [P]; [P * 2] compares equal to [P + P]. *)
Theorem mul_small_scalars (C : Curve) (P : Point) (c : bool) (s : state) :
  Curve_ok C -> point_ok C P s ->
  (exists Z s1,
      __mul__ P {| bignum := 0; bn_curve := C |} s = Returns Z s1
      /\ to_bytes Z c s1 = Returns [x00] s1)
  /\ (exists R s1,
        __mul__ P {| bignum := 1; bn_curve := C |} s = Returns R s1
        /\ __eq__ R P s1 = Returns true s1)
  /\ (exists D s1 S s2,
        __mul__ P {| bignum := 2; bn_curve := C |} s = Returns D s1
        /\ __add__ P P s1 = Returns S s2
        /\ __eq__ D S s2 = Returns true s2).
Proof.
  intros Hok (a & Ha)%point_ok_holds. split; [|split].
  - destruct (mul_holds C P {| bignum := 0; bn_curve := C |} s a Hok Ha)
      as (Z & s1 & Hmul & (HC & HdZ & _) & _).
    exists Z, s1. split; [done|]. apply to_bytes_infinity. rewrite HC. exact HdZ.
  - destruct (mul_holds C P {| bignum := 1; bn_curve := C |} s a Hok Ha)
      as (R & s1 & Hmul & HR & Hp1).
    exists R, s1. split; [done|].
    apply (eq_holds_true C R P s1 a HR). eapply holds_preserved; eassumption.
  - destruct (mul_holds C P {| bignum := 2; bn_curve := C |} s a Hok Ha)
      as (D & s1 & Hmul & HD & Hp1).
    pose proof (holds_preserved _ _ _ _ _ Hp1 Ha) as Ha1.
    destruct (add_holds C P P s1 a a Hok Ha1 Ha1) as (S & s2 & Hadd & HS & Hp2).
    exists D, s1, S, s2. split; [done|split; [done|]].
    apply (eq_holds_true C D S s2 (ec_add (ec_group C) a a)); [|done].
    eapply holds_preserved; eassumption.
Qed.

Lemma mul_small_scalars_witness :
  (exists Z s1,
      __mul__ toy_generator {| bignum := 0; bn_curve := toy_curve |} toy_state
      = Returns Z s1
      /\ to_bytes Z true s1 = Returns [x00] s1)
  /\ (exists R s1,
        __mul__ toy_generator {| bignum := 1; bn_curve := toy_curve |} toy_state
        = Returns R s1
        /\ __eq__ R toy_generator s1 = Returns true s1)
  /\ (exists D s1 S s2,
        __mul__ toy_generator {| bignum := 2; bn_curve := toy_curve |} toy_state
        = Returns D s1
        /\ __add__ toy_generator toy_generator s1 = Returns S s2
        /\ __eq__ D S s2 = Returns true s2).
Proof.
  exact (mul_small_scalars toy_curve toy_generator true toy_state toy_curve_ok
           toy_generator_point_ok).
Defined.
